(** * Surfboard SB6141 exporter: a shallow embedding of
      [prometheus_sb6141_exporter.py] and the properties of its parsers.

    Modelling conventions.
    - Python [str] values are [string]s, a character being a code point
      below 256; the classes the program uses ([\d], [str.strip],
      [str.lower]) are Python's on that range.
    - [re.compile(...)] patterns are terms of a small regular-expression
      syntax, run by a backtracking matcher with greedy quantifiers, as
      Python's [re.match] does (anchored at the start, free at the end).
    - [lxml] documents are element trees; [resp.text] is taken already
      parsed.
    - An exception is a value of [exn]; a statement of the program maps an
      exporter state to the state it leaves behind and how it ended.
    - [int(...)] of a string is CPython's, with its default limit of 4300
      digits; [float(...)] of an int is the nearest binary64 value, or
      [OverflowError]; [float(...)] of a decimal token is its exact
      rational value, the rounding to binary64 is left out.
    - The clock is the environment's: a turn of the loop is given its two
      readings of [time.time()], binary64 floats, and what the operating
      system's sleep did. [time.sleep] is CPython 3.11's on Linux. *)

From Stdlib Require Import ZArith QArith_base Qreduction String Ascii List Lia.
From Stdlib Require PrimFloat FloatOps SpecFloat.
From stdpp Require Import base strings gmap list.
Import PrimFloat.PrimFloatNotations.

Local Open Scope Z_scope.
Set Warnings "-register-all".

(** ** Text *)

Module Text.

Definition is_digit (c : ascii) : bool :=
  let n := nat_of_ascii c in ((48 <=? n) && (n <=? 57))%nat.

(** [str.isspace]: tab, LF, VT, FF, CR, FS, GS, RS, US, space, NEL and the
    no-break space. *)
Definition is_space (c : ascii) : bool :=
  let n := nat_of_ascii c in
  (((9 <=? n) && (n <=? 13)) || ((28 <=? n) && (n <=? 32))
   || (n =? 133) || (n =? 160))%nat.

Fixpoint all_digits (s : string) : bool :=
  match s with
  | EmptyString => true
  | String c s' => is_digit c && all_digits s'
  end.

Definition starts_with_digit (s : string) : bool :=
  match s with
  | EmptyString => false
  | String c _ => is_digit c
  end.

Fixpoint take (n : nat) (s : string) : string :=
  match n, s with
  | S n', String c s' => String c (take n' s')
  | _, _ => EmptyString
  end.

Fixpoint drop (n : nat) (s : string) : string :=
  match n, s with
  | S n', String _ s' => drop n' s'
  | _, _ => s
  end.

(** Number of leading decimal digits. *)
Fixpoint digit_run (s : string) : nat :=
  match s with
  | String c s' => if is_digit c then S (digit_run s') else O
  | EmptyString => O
  end.

(** [s.startswith(p)], returning what follows the prefix. *)
Fixpoint strip_prefix (p s : string) : option string :=
  match p, s with
  | EmptyString, _ => Some s
  | String a p', String b s' =>
      if Ascii.eqb a b then strip_prefix p' s' else None
  | String _ _, EmptyString => None
  end.

Definition startswith (s p : string) : bool :=
  match strip_prefix p s with Some _ => true | None => false end.

Fixpoint lstrip (s : string) : string :=
  match s with
  | String c s' => if is_space c then lstrip s' else s
  | EmptyString => EmptyString
  end.

Fixpoint rstrip (s : string) : string :=
  match s with
  | EmptyString => EmptyString
  | String c s' =>
      match rstrip s' with
      | EmptyString => if is_space c then EmptyString else String c EmptyString
      | r => String c r
      end
  end.

(** [s.strip()] *)
Definition strip (s : string) : string := rstrip (lstrip s).

(** [s.replace(a, b)] for a one-character [a]. *)
Fixpoint replace (a : ascii) (b : string) (s : string) : string :=
  match s with
  | EmptyString => EmptyString
  | String c s' =>
      if Ascii.eqb c a then b +:+ replace a b s' else String c (replace a b s')
  end.

(** [str.lower] of a character: A-Z, and the capital letters of Latin-1
    (all of 192-222 but the multiplication sign, 215). *)
Definition lower_char (c : ascii) : ascii :=
  let n := nat_of_ascii c in
  if (((65 <=? n) && (n <=? 90))
      || ((192 <=? n) && (n <=? 222) && negb (n =? 215)))%nat
  then ascii_of_nat (n + 32) else c.

Fixpoint lower (s : string) : string :=
  match s with
  | EmptyString => EmptyString
  | String c s' => String (lower_char c) (lower s')
  end.

(** [sep.join(words)] *)
Fixpoint join (sep : string) (words : list string) : string :=
  match words with
  | [] => EmptyString
  | [w] => w
  | w :: ws => w +:+ sep +:+ join sep ws
  end.

Definition digit_value (c : ascii) : Z := Z.of_nat (nat_of_ascii c) - 48.

Fixpoint int_digits_from (acc : Z) (s : string) : Z :=
  match s with
  | EmptyString => acc
  | String c s' => int_digits_from (10 * acc + digit_value c) s'
  end.

(** [int(s)] on a string of decimal digits. *)
Definition int_of_digits (s : string) : Z := int_digits_from 0 s.

End Text.

(** ** Regular expressions *)

Module Re.
Import Text.

(** The constructs the two patterns of the exporter use. *)
Inductive regex : Type :=
| Lit (s : string)                        (* literal text *)
| Digits (lo : nat) (hi : option nat)     (* \d{lo,hi}; \d+ is Digits 1 None *)
| Seq (r1 r2 : regex)
| Opt (r : regex)                         (* (r)? *)
| Named (name : string) (r : regex).      (* (?P<name>r) *)

Definition groups := list (string * string).

(** Greedy repetition: the longest run first, then one character less. *)
Fixpoint backoff {A} (lo n : nat) (s : string)
    (k : string -> string -> option A) : option A :=
  match n with
  | O => if (0 <? lo)%nat then None else k EmptyString s
  | S n' =>
      if (n <? lo)%nat then None
      else match k (take n s) (drop n s) with
           | Some a => Some a
           | None => backoff lo n' s k
           end
  end.

Definition digits_max (hi : option nat) (s : string) : nat :=
  match hi with
  | Some h => Nat.min h (digit_run s)
  | None => digit_run s
  end.

(** The matcher, in continuation-passing style: [k consumed rest gs] is
    what remains to be matched after [r]; a [None] from it makes the
    matcher try its next alternative. *)
Fixpoint run {A} (r : regex) (s : string) (gs : groups)
    (k : string -> string -> groups -> option A) : option A :=
  match r with
  | Lit l =>
      match strip_prefix l s with
      | Some rest => k l rest gs
      | None => None
      end
  | Digits lo hi =>
      backoff lo (digits_max hi s) s (fun c rest => k c rest gs)
  | Seq r1 r2 =>
      run r1 s gs (fun c1 s1 g1 =>
        run r2 s1 g1 (fun c2 s2 g2 => k (c1 +:+ c2) s2 g2))
  | Opt r' =>
      match run r' s gs k with
      | Some a => Some a
      | None => k EmptyString s gs
      end
  | Named name r' =>
      run r' s gs (fun c s1 g1 => k c s1 ((name, c) :: g1))
  end.

(** A match object: the text matched and the named groups that took part. *)
Record match_object := { group0 : string; captured : groups }.

(** [pattern.match(s)] *)
Definition rmatch (r : regex) (s : string) : option match_object :=
  run r s [] (fun c _ gs => Some {| group0 := c; captured := gs |}).

Fixpoint assoc (name : string) (gs : groups) : option string :=
  match gs with
  | [] => None
  | (n, v) :: gs' => if String.eqb n name then Some v else assoc name gs'
  end.

Fixpoint group_names (r : regex) : list string :=
  match r with
  | Lit _ | Digits _ _ => []
  | Seq r1 r2 => group_names r1 ++ group_names r2
  | Opt r' => group_names r'
  | Named n r' => n :: group_names r'
  end.

(** [m.groupdict()]: every named group of the pattern, [None] for one
    that did not take part. *)
Definition groupdict (r : regex) (m : match_object) : list (string * option string) :=
  map (fun n => (n, assoc n (captured m))) (group_names r).

(** [pattern.search(s)]: the first position at which the pattern matches. *)
Fixpoint search (r : regex) (s : string) : option match_object :=
  match rmatch r s with
  | Some m => Some m
  | None =>
      match s with
      | EmptyString => None
      | String _ s' => search r s'
      end
  end.

(** The texts a pattern can consume. *)
Fixpoint lang (r : regex) (c : string) : Prop :=
  match r with
  | Lit l => c = l
  | Digits lo hi =>
      all_digits c = true /\ (lo <= String.length c)%nat /\
      match hi with Some h => (String.length c <= h)%nat | None => True end
  | Seq r1 r2 => exists c1 c2, c = c1 +:+ c2 /\ lang r1 c1 /\ lang r2 c2
  | Opt r' => c = EmptyString \/ lang r' c
  | Named _ r' => lang r' c
  end.

End Re.

(** ** Documents: the [lxml] element tree *)

Module Lxml.

Inductive element : Type :=
| Element (tag : string) (text : option string) (children : list element).

Definition tag (e : element) : string :=
  match e with Element t _ _ => t end.

(** [e.text]: the text before the first child, [None] when there is none. *)
Definition text (e : element) : option string :=
  match e with Element _ t _ => t end.

Definition getchildren (e : element) : list element :=
  match e with Element _ _ cs => cs end.

(** [e.iterdescendants()], in document order. *)
Fixpoint iterdescendants (e : element) : list element :=
  match e with
  | Element _ _ cs =>
      (fix each (l : list element) : list element :=
         match l with
         | [] => []
         | c :: l' => c :: iterdescendants c ++ each l'
         end) cs
  end.

Definition has_tag (name : string) (e : element) : bool := String.eqb (tag e) name.

(** [root.xpath("//name")] *)
Definition xpath_all (name : string) (root : element) : list element :=
  List.filter (has_tag name) (root :: iterdescendants root).

(** [e.findall("name")] *)
Definition findall (name : string) (e : element) : list element :=
  List.filter (has_tag name) (getchildren e).

(** [e.findall("a/b")] *)
Definition findall2 (a b : string) (e : element) : list element :=
  flat_map (findall b) (findall a e).

End Lxml.

(** ** Exceptions and results *)

Inductive exn : Type :=
| AttributeError | IndexError | KeyError | TypeError | ValueError
| OverflowError | OSError | RequestException.

Inductive res (A : Type) : Type :=
| Ok (a : A)
| Raise (e : exn).
Arguments Ok {A} a.
Arguments Raise {A} e.

Definition bind {A B} (x : res A) (f : A -> res B) : res B :=
  match x with
  | Ok a => f a
  | Raise e => Raise e
  end.

Notation "x <- c ;; k" := (bind c (fun x => k))
  (at level 100, c at next level, right associativity).

(** [[f(x) for x in l]], stopping at the first exception. *)
Fixpoint map_res {A B} (f : A -> res B) (l : list A) : res (list B) :=
  match l with
  | [] => Ok []
  | x :: l' => y <- f x ;; ys <- map_res f l' ;; Ok (y :: ys)
  end.

(** How a statement ends. *)
Inductive outcome : Type :=
| Done
| Raised (e : exn).

Section Loops.
Context {S A : Type}.

(** [for x in l: body]; a [continue] is a body that is [Done] early. *)
Fixpoint for_each (body : A -> S -> S * outcome) (l : list A) (st : S)
    : S * outcome :=
  match l with
  | [] => (st, Done)
  | x :: l' =>
      match body x st with
      | (st', Done) => for_each body l' st'
      | stopped => stopped
      end
  end.
End Loops.

(** ** Builtins *)

Import Text Re Lxml.

(** A decimal literal of [int]: digits, single underscores between them. *)
Fixpoint int_literal (acc : Z) (after_digit : bool) (s : string) : option Z :=
  match s with
  | EmptyString => if after_digit then Some acc else None
  | String c s' =>
      if is_digit c then int_literal (10 * acc + digit_value c) true s'
      else if Ascii.eqb c "_" && after_digit then int_literal acc false s'
      else None
  end.

(** The white space [int] skips around a literal: tab, LF, VT, FF, CR,
    space, NEL and the no-break space. The separators 28-31, which
    [str.strip] takes, are not among them. *)
Definition is_int_space (c : ascii) : bool :=
  let n := nat_of_ascii c in
  (((9 <=? n) && (n <=? 13)) || (n =? 32) || (n =? 133) || (n =? 160))%nat.

Fixpoint int_lstrip (s : string) : string :=
  match s with
  | String c s' => if is_int_space c then int_lstrip s' else s
  | EmptyString => EmptyString
  end.

Fixpoint int_rstrip (s : string) : string :=
  match s with
  | EmptyString => EmptyString
  | String c s' =>
      match int_rstrip s' with
      | EmptyString => if is_int_space c then EmptyString else String c EmptyString
      | r => String c r
      end
  end.

(** [sys.get_int_max_str_digits()], which the program leaves at its
    default. *)
Definition int_max_str_digits : nat := 4300.

(** The digits of a literal; its underscores do not count. *)
Fixpoint count_digits (s : string) : nat :=
  match s with
  | EmptyString => O
  | String c s' => if is_digit c then S (count_digits s') else count_digits s'
  end.

(** An unsigned literal within the limit on its digits. *)
Definition int_unsigned (d : string) : option Z :=
  if (count_digits d <=? int_max_str_digits)%nat then int_literal 0 false d
  else None.

(** [int(s)] for a string: surrounding white space, an optional sign, a
    literal; [ValueError] on anything else and on a literal of more than
    [int_max_str_digits] digits. *)
Definition py_int (s : string) : res Z :=
  let signed :=
    match int_rstrip (int_lstrip s) with
    | String "+" d => int_unsigned d
    | String "-" d => Z.opp <$> int_unsigned d
    | d => int_unsigned d
    end in
  match signed with
  | Some n => Ok n
  | None => Raise ValueError
  end.

(** [float(n)] for an int: the nearest binary64 value, ties to the even
    one, given as the integer it is; [OverflowError] when that is beyond
    the largest finite one. *)
Definition float_of_int (n : Z) : res Z :=
  let a := Z.abs n in
  let e := Z.log2 a - 52 in
  if e <=? 0 then Ok n
  else
    let q := Z.shiftr a e in
    let r := a - Z.shiftl q e in
    let half := Z.shiftl 1 (e - 1) in
    let q' := if (half <? r) || ((half =? r) && Z.odd q) then q + 1 else q in
    let v := Z.shiftl q' e in
    if 2 ^ 1024 <=? v then Raise OverflowError else Ok (Z.sgn n * v).

(** The float that an integer [v] with an exact binary64 form is:
    [m * 2^e] with [m] below 2^53. *)
Definition float_of_Z (v : Z) : PrimFloat.float :=
  match Z.abs v with
  | Zpos a =>
      let e := Z.max 0 (Z.log2 (Zpos a) - 52) in
      FloatOps.SF2Prim
        (SpecFloat.S754_finite (v <? 0) (Z.to_pos (Z.shiftr (Zpos a) e)) e)
  | _ => PrimFloat.zero
  end.

(** [time.sleep(secs)] for a float of 5 or more. A nan is refused with
    [ValueError]. The seconds become nanoseconds, [secs * 1e9] in floats,
    rounded up to a whole number, which does not take them across 2^63.
    These must lie in the range of an int64 as floats, that is be at most
    2^63, or it is [OverflowError]; 2^63 itself wraps to a negative int64
    and is refused with [ValueError]. Then the operating system sleeps:
    [os_sleep] is how that ends ([OSError] for a time the kernel does not
    take). *)
Definition time_sleep (secs : PrimFloat.float) (os_sleep : outcome) : outcome :=
  if PrimFloat.is_nan secs then Raised ValueError
  else
    let ns := (secs * float_of_Z (10 ^ 9))%float in
    if negb (ns <=? float_of_Z (2 ^ 63))%float then Raised OverflowError
    else if (ns =? float_of_Z (2 ^ 63))%float then Raised ValueError
    else os_sleep.

(** [int(e.text)] *)
Definition py_int_text (t : option string) : res Z :=
  match t with
  | None => Raise TypeError
  | Some s => py_int s
  end.

(** Truth value of an optional string: [None] and [""] are false. *)
Definition truthy (t : option string) : bool :=
  match t with
  | Some (String _ _) => true
  | _ => false
  end.

Fixpoint split_dot (s : string) : string * option string :=
  match s with
  | EmptyString => (EmptyString, None)
  | String c s' =>
      if Ascii.eqb c "." then (EmptyString, Some s')
      else let (i, f) := split_dot s' in (String c i, f)
  end.

(** [float(tok)] for a token [digits] or [digits.digits]: its value. *)
Definition py_float (tok : string) : Q :=
  match split_dot tok with
  | (i, None) => Qred (int_of_digits i # 1)
  | (i, Some f) =>
      Qred (int_of_digits (i +:+ f) # Pos.pow 10 (Pos.of_nat (String.length f)))
  end.

(** [d[key]] for a dictionary written as a literal. *)
Fixpoint dict_get {V} (d : list (string * V)) (key : string) : option V :=
  match d with
  | [] => None
  | (k, v) :: d' => if String.eqb k key then Some v else dict_get d' key
  end.

Definition in_list (x : string) (l : list string) : bool :=
  existsb (String.eqb x) l.

(** ** The exporter *)

(** ((?P<days>\d+) days )?(?P<hours>\d+)h:(?P<minutes>\d{1,2})m:(?P<seconds>\d{1,2})s *)
Definition DURATION_RE : regex :=
  Seq (Opt (Seq (Named "days" (Digits 1 None)) (Lit " days ")))
  (Seq (Named "hours" (Digits 1 None))
  (Seq (Lit "h:")
  (Seq (Named "minutes" (Digits 1 (Some 2%nat)))
  (Seq (Lit "m:")
  (Seq (Named "seconds" (Digits 1 (Some 2%nat)))
       (Lit "s")))))).

(** \d+(\.\d+)? *)
Definition FLOAT_RE : regex :=
  Seq (Digits 1 None) (Opt (Seq (Lit ".") (Digits 1 None))).

Definition SECONDS : list (string * Z) :=
  [("days", 24 * 60 * 60); ("hours", 60 * 60); ("minutes", 60); ("seconds", 1)].

Definition SIGNAL_DATA : list (string * list string) :=
  [("Downstream",
    ["Frequency"; "Signal to Noise Ratio"; "Downstream Modulation";
     "Power Level"]);
   ("Upstream",
    ["Frequency"; "Ranging Service ID"; "Symbol Rate"; "Power Level"]);
   ("Signal Status (Codewords)",
    ["Total Unerrored Codewords"; "Total Correctable Codewords";
     "Total Uncorrectable Codewords"])].

Definition TASKS : list string :=
  ["DOCSIS Downstream Channel Acquisition";
   "DOCSIS Ranging";
   "Establish IP Connectivity using DHCP";
   "Establish Time Of Day";
   "Transfer Operational Parameters through TFTP";
   "Register Connection";
   "Cable Modem Status";
   "Initialize Baseline Privacy"].

Definition UPTIME : string := "System Up Time".
Definition TIME : string := "Current Time and Date".
Definition TASK_STATES : list string :=
  ["Not started"; "Offline"; "Done"; "Operational"; "Other"].
Definition METRIC_PREFIX : string := "surfboard".

(** Return a metric-style name for a list of words. *)
Definition to_metric (words : list string) : string :=
  let words :=
    map (fun word => strip (replace " " "_" (replace ")" "" (replace "(" "" word))))
        words in
  lower (join "_" (METRIC_PREFIX :: words)).

(** [prometheus_client.Enum]: a name, its states and the current one. *)
Record Enum := {
  enum_name : string;
  enum_documentation : string;
  enum_states : list string;
  enum_state : string
}.

(** [prometheus_client.Gauge] without labels. *)
Record Gauge := {
  gauge_name : string;
  gauge_documentation : string;
  gauge_value : Z
}.

(** [prometheus_client.Gauge] labelled by channel: a child per channel. *)
Record ChannelGauge := {
  cg_name : string;
  cg_documentation : string;
  cg_children : gmap Z Q
}.

Inductive warning : Type :=
| UnknownState (value task : string)   (* "Unknown state %s for task %s." *)
| UnknownRow (task : string).          (* "Unknown row %s" *)

(** The exporter object, with the warnings the module's logger received. *)
Record SurfboardExporter := {
  tasks : gmap string Enum;
  signals : gmap (string * string) ChannelGauge;
  uptime : Gauge;
  refresh_rate : Z;
  warnings : list warning
}.

Definition new_Enum (name documentation : string) (states : list string) : Enum :=
  {| enum_name := name; enum_documentation := documentation;
     enum_states := states; enum_state := hd EmptyString states |}.

(** [SIGNAL_DATA.items()] flattened: for table, keys ... for key in keys. *)
Definition signal_keys : list (string * string) :=
  flat_map (fun '(table, keys) => map (fun key => (table, key)) keys) SIGNAL_DATA.

(** [SurfboardExporter.__init__] *)
Definition init (refresh_rate : Z) : SurfboardExporter :=
  {| tasks :=
       foldl (fun d task => <[task := new_Enum (to_metric [task]) task TASK_STATES]> d)
             ∅ TASKS;
     signals :=
       foldl (fun d '(table, key) =>
                <[(table, key) :=
                    {| cg_name := to_metric [table; key];
                       cg_documentation := table +:+ ": " +:+ key;
                       cg_children := ∅ |}]> d)
             ∅ signal_keys;
     uptime := {| gauge_name := to_metric [UPTIME];
                  gauge_documentation := UPTIME; gauge_value := 0 |};
     refresh_rate := refresh_rate;
     warnings := [] |}.

Definition with_tasks (self : SurfboardExporter) (t : gmap string Enum) :=
  {| tasks := t; signals := signals self; uptime := uptime self;
     refresh_rate := refresh_rate self; warnings := warnings self |}.

Definition with_signals (self : SurfboardExporter)
    (s : gmap (string * string) ChannelGauge) :=
  {| tasks := tasks self; signals := s; uptime := uptime self;
     refresh_rate := refresh_rate self; warnings := warnings self |}.

Definition log_warning (w : warning) (self : SurfboardExporter) :=
  {| tasks := tasks self; signals := signals self; uptime := uptime self;
     refresh_rate := refresh_rate self; warnings := warnings self ++ [w] |}.

(** The uptime gauge holding the float [v]. *)
Definition store_uptime (v : Z) (self : SurfboardExporter) :=
  {| tasks := tasks self; signals := signals self;
     uptime := {| gauge_name := gauge_name (uptime self);
                  gauge_documentation := gauge_documentation (uptime self);
                  gauge_value := v |};
     refresh_rate := refresh_rate self; warnings := warnings self |}.

(** [self.uptime.set(v)]: [Gauge.set] stores [float(v)]. *)
Definition set_uptime (v : Z) (self : SurfboardExporter)
    : SurfboardExporter * outcome :=
  match float_of_int v with
  | Ok f => (store_uptime f self, Done)
  | Raise e => (self, Raised e)
  end.

(** [self.tasks[task].state(value)]: the subscript raises [KeyError] on a
    missing task, [Enum.state] raises [ValueError] outside its states. *)
Definition set_task_state (task value : string) (self : SurfboardExporter)
    : SurfboardExporter * outcome :=
  match tasks self !! task with
  | None => (self, Raised KeyError)
  | Some e =>
      if in_list value (enum_states e) then
        (with_tasks self
           (<[task := {| enum_name := enum_name e;
                         enum_documentation := enum_documentation e;
                         enum_states := enum_states e;
                         enum_state := value |}]> (tasks self)), Done)
      else (self, Raised ValueError)
  end.

(** [self.signals[table_name, key].labels(channel).set(v)] *)
Definition set_signal (table_name key : string) (channel : Z) (v : Q)
    (self : SurfboardExporter) : SurfboardExporter * outcome :=
  match signals self !! (table_name, key) with
  | None => (self, Raised KeyError)
  | Some g =>
      (with_signals self
         (<[(table_name, key) :=
              {| cg_name := cg_name g; cg_documentation := cg_documentation g;
                 cg_children := <[channel := v]> (cg_children g) |}]>
            (signals self)), Done)
  end.

(** The result of [self.session.get(url)]: a response, or an exception of
    the transport. The page of a response is given as its parsed tree,
    [lxml.etree.HTML(resp.text)]. *)
Record response := { ok : bool; html : element }.

Inductive fetched : Type :=
| Response (resp : response)
| Failed (e : exn).

(** [int(v or 0)] *)
Definition int_or_zero (v : option string) : res Z :=
  match v with
  | Some (String c s) => py_int (String c s)
  | _ => Ok 0
  end.

(** [sum(num * SECONDS[unit] for unit, num in parts.items())] *)
Fixpoint sum_seconds (parts : list (string * Z)) : res Z :=
  match parts with
  | [] => Ok 0
  | (unit, num) :: parts' =>
      match dict_get SECONDS unit with
      | None => Raise KeyError
      | Some per => rest <- sum_seconds parts' ;; Ok (num * per + rest)
      end
  end.

(** The uptime branch of [update_status], lines 99-103: the seconds in a
    duration. [DURATION_RE.match(value)] is [None] on a mismatch and
    [.groupdict()] on it raises [AttributeError]. *)
Definition uptime_seconds (value : string) : res Z :=
  match rmatch DURATION_RE value with
  | None => Raise AttributeError
  | Some m =>
      parts <- map_res (fun '(k, v) => n <- int_or_zero v ;; Ok (k, n))
                       (groupdict DURATION_RE m) ;;
      sum_seconds parts
  end.

(** The body of the loop over the rows of the status page. *)
Definition status_row (row : element) (self : SurfboardExporter)
    : SurfboardExporter * outcome :=
  let values := map text (getchildren row) in
  if negb (length values =? 2)%nat || negb (forallb truthy values) then
    (self, Done)
  else
    match values with
    | [Some t; Some v] =>
        let task := strip t in
        let value := strip v in
        if in_list task TASKS then
          if in_list value TASK_STATES then set_task_state task value self
          else
            match set_task_state task "Other" self with
            | (self', Done) => (log_warning (UnknownState value task) self', Done)
            | stopped => stopped
            end
        else if String.eqb task TIME then (self, Done)
        else if String.eqb task UPTIME then
          match uptime_seconds value with
          | Ok seconds => set_uptime seconds self
          | Raise e => (self, Raised e)
          end
        else (log_warning (UnknownRow task) self, Done)
    | _ => (self, Done)
    end.

(** Update status page metrics. *)
Definition update_status (got : fetched) (self : SurfboardExporter)
    : SurfboardExporter * outcome :=
  match got with
  | Failed e => (self, Raised e)
  | Response resp =>
      if negb (ok resp) then (self, Done)
      else for_each status_row (xpath_all "tr" (html resp)) self
  end.

(** [[i.text.strip() for i in header.iterdescendants() if i.text][0]] *)
Definition table_name_of (header : element) : res string :=
  let names :=
    flat_map (fun i => match text i with
                       | Some (String c s) => [strip (String c s)]
                       | _ => []
                       end)
             (iterdescendants header) in
  match names with
  | name :: _ => Ok name
  | [] => Raise IndexError
  end.

(** [[int(i.text) for i in channels.findall("td")[1:]]] *)
Definition channel_ids_of (channels : element) : res (list Z) :=
  map_res (fun i => py_int_text (text i)) (tl (findall "td" channels)).

(** [next((k for k in keys if key.startswith(k)), None)]; on a [key] that
    is [None] the first test raises [AttributeError]. *)
Fixpoint first_prefix (key : option string) (keys : list string)
    : res (option string) :=
  match keys with
  | [] => Ok None
  | k :: keys' =>
      match key with
      | None => Raise AttributeError
      | Some label =>
          if startswith label k then Ok (Some k) else first_prefix key keys'
      end
  end.

(** [for channel, value in zip(channel_ids, values, strict=True): ...]:
    the pairs are served until one side ends, [ValueError] is raised
    when the other side has not ended too. [FLOAT_RE.match(value)] raises
    [TypeError] on a [value] that is [None]. *)
Fixpoint signal_cells (table_name key : string) (channel_ids : list Z)
    (values : list (option string)) (self : SurfboardExporter)
    : SurfboardExporter * outcome :=
  match channel_ids, values with
  | [], [] => (self, Done)
  | channel :: channel_ids', value :: values' =>
      match value with
      | None => (self, Raised TypeError)
      | Some cell =>
          match rmatch FLOAT_RE cell with
          | Some m =>
              match set_signal table_name key channel (py_float (group0 m)) self with
              | (self', Done) => signal_cells table_name key channel_ids' values' self'
              | stopped => stopped
              end
          | None => signal_cells table_name key channel_ids' values' self
          end
      end
  | _, _ => (self, Raised ValueError)
  end.

(** The body of the loop over the data rows of a table. *)
Definition signal_row (table_name : string) (channel_ids : list Z)
    (row : element) (self : SurfboardExporter) : SurfboardExporter * outcome :=
  match map text (findall "td" row) with
  | [] => (self, Raised ValueError)          (* key, *values = [] *)
  | key :: values =>
      match dict_get SIGNAL_DATA table_name with
      | None => (self, Raised KeyError)
      | Some keys =>
          match first_prefix key keys with
          | Raise e => (self, Raised e)
          | Ok (Some (String c k)) =>
              signal_cells table_name (String c k) channel_ids values self
          | Ok _ => (self, Done)             (* if not key: continue *)
          end
      end
  end.

(** The body of the loop over the tables of the signal page. *)
Definition signal_table (table : element) (self : SurfboardExporter)
    : SurfboardExporter * outcome :=
  let table_rows := findall2 "tbody" "tr" table in
  if (length table_rows <? 3)%nat then (self, Done)
  else
    match table_rows with
    | header :: channels :: rows =>
        match table_name_of header with
        | Raise e => (self, Raised e)
        | Ok table_name =>
            match channel_ids_of channels with
            | Raise e => (self, Raised e)
            | Ok channel_ids =>
                for_each (signal_row table_name channel_ids) rows self
            end
        end
    | _ => (self, Done)
    end.

(** Update signal page metrics. *)
Definition update_signal (got : fetched) (self : SurfboardExporter)
    : SurfboardExporter * outcome :=
  match got with
  | Failed e => (self, Raised e)
  | Response resp =>
      if negb (ok resp) then (self, Done)
      else for_each signal_table (xpath_all "table" (html resp)) self
  end.

(** What the environment gives one turn of the loop: the reading of the
    clock at line 136, the two fetches, the reading of the clock at line
    139 and how the operating system's sleep ends. *)
Record turn := {
  start : PrimFloat.float;
  status_fetch : fetched;
  signal_fetch : fetched;
  finish : PrimFloat.float;
  os_sleep : outcome
}.

(** [time.sleep(max(start + self.refresh_rate - time.time(), 5))].
    [start + self.refresh_rate] takes the int to a float, which raises
    [OverflowError] beyond the range of floats. [max] gives the int 5 when
    [5 > left], which a nan is not, and [time.sleep(5)] goes to the
    operating system. *)
Definition sleep_until_next (got : turn) (self : SurfboardExporter)
    : SurfboardExporter * outcome :=
  match float_of_int (refresh_rate self) with
  | Raise e => (self, Raised e)
  | Ok rate =>
      let left := (start got + float_of_Z rate - finish got)%float in
      if (left <? float_of_Z 5)%float then (self, os_sleep got)
      else (self, time_sleep left (os_sleep got))
  end.

(** One turn of [main_loop]'s [while True]. *)
Definition poll (got : turn) (self : SurfboardExporter)
    : SurfboardExporter * outcome :=
  match update_status (status_fetch got) self with
  | (self1, Done) =>
      match update_signal (signal_fetch got) self1 with
      | (self2, Done) => sleep_until_next got self2
      | stopped => stopped
      end
  | stopped => stopped
  end.

(** Loop to update metrics then sleep: the turns of the loop that the
    environment feeds; an exception leaves the loop. *)
Definition main_loop (fetches : list turn)
    (self : SurfboardExporter) : SurfboardExporter * outcome :=
  for_each poll fetches self.

(** The names of the metrics the exporter holds. *)
Definition metric_names (self : SurfboardExporter) : gset string :=
  map_img (enum_name <$> tasks self) ∪ map_img (cg_name <$> signals self)
  ∪ {[ gauge_name (uptime self) ]}.

(** The names computed from the schedules. *)
Definition schedule_names : list string :=
  map (fun task => to_metric [task]) TASKS
  ++ map (fun '(table, key) => to_metric [table; key]) signal_keys
  ++ [to_metric [UPTIME]].

(** ** Reading the spec's words *)

(** The spec's duration pattern, [[<days> days ]<hours>h:<minutes>m:<seconds>s]
    with hours, minutes and seconds of one or two digits. *)
Definition spec_duration_pattern : regex :=
  Seq (Opt (Seq (Named "days" (Digits 1 None)) (Lit " days ")))
  (Seq (Named "hours" (Digits 1 (Some 2%nat)))
  (Seq (Lit "h:")
  (Seq (Named "minutes" (Digits 1 (Some 2%nat)))
  (Seq (Lit "m:")
  (Seq (Named "seconds" (Digits 1 (Some 2%nat)))
       (Lit "s")))))).

(** The spec's numeric token: the first substring of the cell that is an
    unsigned decimal number. *)
Definition spec_numeric_token (cell : string) : option string :=
  group0 <$> search FLOAT_RE cell.

(** The extractor of the program: [FLOAT_RE.match(value)] and [.group()]. *)
Definition numeric_token (cell : string) : option string :=
  group0 <$> rmatch FLOAT_RE cell.

(** A duration written out: days (when present), hours, minutes, seconds. *)
Definition duration_text (days : option string) (h m s : string) : string :=
  match days with
  | Some d => d +:+ " days " +:+ h +:+ "h:" +:+ m +:+ "m:" +:+ s +:+ "s"
  | None => h +:+ "h:" +:+ m +:+ "m:" +:+ s +:+ "s"
  end.

Definition days_value (days : option string) : Z :=
  match days with
  | Some d => int_of_digits d
  | None => 0
  end.

(** A group of digits: all digits, at least [lo] and at most [hi] of them. *)
Definition digit_text (lo : nat) (hi : option nat) (s : string) : bool :=
  all_digits s && (lo <=? String.length s)%nat
  && match hi with Some h => (String.length s <=? h)%nat | None => true end.

(** The fields of a duration as [DURATION_RE] takes them. *)
Definition duration_fields (days : option string) (h m s : string) : bool :=
  match days with Some d => digit_text 1 None d | None => true end
  && digit_text 1 None h
  && digit_text 1 (Some 2%nat) m
  && digit_text 1 (Some 2%nat) s.

(** The days and hours are within the limit [int] puts on the digits of
    a literal (minutes and seconds, of two digits at most, always are). *)
Definition within_int_limit (days : option string) (h : string) : bool :=
  match days with
  | Some d => (String.length d <=? int_max_str_digits)%nat
  | None => true
  end && (String.length h <=? int_max_str_digits)%nat.

(** A text that begins with a duration. *)
Definition duration_prefix (value : string) : Prop :=
  exists days h m s tail,
    duration_fields days h m s = true /\
    value = duration_text days h m s +:+ tail.

(** The metrics of the schedules are there, with the states of
    [TASK_STATES]: what [__init__] sets up and the parsers rely on. *)
Definition registered (self : SurfboardExporter) : Prop :=
  (forall task, in_list task TASKS = true ->
     exists e, tasks self !! task = Some e /\ enum_states e = TASK_STATES) /\
  (forall table keys key, dict_get SIGNAL_DATA table = Some keys ->
     In key keys -> is_Some (signals self !! (table, key))).

(** Two exporter states hold the same metrics under the same names. *)
Definition same_names (self self' : SurfboardExporter) : Prop :=
  enum_name <$> tasks self' = enum_name <$> tasks self /\
  cg_name <$> signals self' = cg_name <$> signals self /\
  gauge_name (uptime self') = gauge_name (uptime self).

(** A fetch that raised, or whose response is not [ok]. *)
Definition fetch_failed (got : fetched) : bool :=
  match got with
  | Failed _ => true
  | Response resp => negb (ok resp)
  end.

(** The current state of a task. *)
Definition task_state (self : SurfboardExporter) (task : string) : option string :=
  enum_state <$> tasks self !! task.

(** The reading of a channel. *)
Definition reading (self : SurfboardExporter) (table key : string) (channel : Z)
    : option Q :=
  match signals self !! (table, key) with
  | Some g => cg_children g !! channel
  | None => None
  end.

(** The fraction that follows the leading digits of a cell: a point and
    the digits after it, when there is at least one. *)
Definition fraction (rest : string) : string :=
  match rest with
  | String c after =>
      if Ascii.eqb c "." && negb (digit_run after =? 0)%nat
      then "." +:+ take (digit_run after) after
      else EmptyString
  | EmptyString => EmptyString
  end.

(** The number a cell begins with: its leading digits, with the fraction
    that follows them. *)
Definition leading_number (cell : string) : option string :=
  let n := digit_run cell in
  if (n =? 0)%nat then None
  else Some (take n cell +:+ fraction (drop n cell)).

(** A data row without a label: no [td] at all, or a first [td] whose
    text is [None]. *)
Definition no_label (row : element) : bool :=
  match map text (findall "td" row) with
  | [] | None :: _ => true
  | Some _ :: _ => false
  end.

(** ** Sample pages *)

(** [c * n] *)
Fixpoint repeat_char (n : nat) (c : ascii) : string :=
  match n with
  | O => EmptyString
  | S n' => String c (repeat_char n' c)
  end.

(** A days group of one digit more than [int] takes. *)
Definition long_days : string := repeat_char 4301 "9".

(** A turn of the loop with the given status page, a signal fetch that
    fails and a sleep that returns. *)
Definition status_turn (resp : response) : turn :=
  {| start := float_of_Z 1700000000;
     status_fetch := Response resp; signal_fetch := Failed RequestException;
     finish := float_of_Z 1700000002; os_sleep := Done |}.

Definition td (t : string) : element := Element "td" (Some t) [].
Definition tr (cells : list element) : element := Element "tr" None cells.

(** A table of the signal page: a header row with the name, then [rows]. *)
Definition table_of (name : string) (rows : list element) : element :=
  Element "table" None
    [Element "tbody" None
       (tr [Element "th" None [Element "font" (Some name) []]] :: rows)].

Definition page_of (tables : list element) : response :=
  {| ok := true; html := Element "html" None [Element "body" None tables] |}.

Definition channels_1_2 : element := tr [td "Channel ID"; td "1"; td "2"].
Definition power_row : element :=
  tr [td "Power Level"; td "5.1 dBmV"; td "4.9 dBmV"].

(** A well-formed table of the schedule. *)
Definition downstream_table : element :=
  table_of "Downstream" [channels_1_2; power_row].
(** The same rows under a name the schedule does not have. *)
Definition unknown_table : element :=
  table_of "Event Log" [channels_1_2; power_row].
(** A header and a channel row only. *)
Definition short_table : element := table_of "Downstream" [channels_1_2].
(** Three channels, two values. *)
Definition mismatch_table : element :=
  table_of "Downstream" [tr [td "Channel ID"; td "1"; td "2"; td "3"]; power_row].
(** A channel id of one digit more than [int] takes. *)
Definition long_channel_table : element :=
  table_of "Downstream"
    [tr [td "Channel ID"; td long_days]; tr [td "Power Level"; td "5.1 dBmV"]].
(** A data row whose first cell has its text inside a child element. *)
Definition unlabelled_table : element :=
  table_of "Downstream"
    [channels_1_2;
     tr [Element "td" None [Element "b" (Some "Power Level") []];
         td "5.1 dBmV"; td "4.9 dBmV"]].

(** ** A page read as a whole *)

(** [c in s] *)
Fixpoint contains (c : ascii) (s : string) : bool :=
  match s with
  | EmptyString => false
  | String x s' => Ascii.eqb x c || contains c s'
  end.

Definition is_upper (c : ascii) : bool :=
  let n := nat_of_ascii c in ((65 <=? n) && (n <=? 90))%nat.

Fixpoint has_upper (s : string) : bool :=
  match s with
  | EmptyString => false
  | String x s' => is_upper x || has_upper s'
  end.

(** The label and the value of a status row that passes the guard of
    [update_status]: two cells, both with text, stripped. *)
Definition row_texts (row : element) : option (string * string) :=
  match map text (getchildren row) with
  | [Some (String a t); Some (String b v)] =>
      Some (strip (String a t), strip (String b v))
  | _ => None
  end.

(** The task a status row writes, with the state it writes. *)
Definition task_update (row : element) : option (string * string) :=
  match row_texts row with
  | Some (task, value) =>
      if in_list task TASKS
      then Some (task, if in_list value TASK_STATES then value else "Other")
      else None
  | None => None
  end.

(** The duration text of an uptime row. *)
Definition uptime_update (row : element) : option string :=
  match row_texts row with
  | Some (task, value) => if String.eqb task UPTIME then Some value else None
  | None => None
  end.

(** The float the uptime branch hands to its gauge: the seconds of the
    duration through [float], as [Gauge.set] takes them. *)
Definition uptime_float (value : string) : res Z :=
  seconds <- uptime_seconds value ;; float_of_int seconds.

(** The exception of an uptime row whose value does not go through. *)
Definition uptime_row_error (row : element) : option exn :=
  match uptime_update row with
  | Some value =>
      match uptime_float value with
      | Ok _ => None
      | Raise e => Some e
      end
  | None => None
  end.

(** The exception of the first uptime row that has one. *)
Fixpoint first_row_error (rows : list element) : option exn :=
  match rows with
  | [] => None
  | row :: rest =>
      match uptime_row_error row with
      | Some e => Some e
      | None => first_row_error rest
      end
  end.

(** The warning a status row logs. *)
Definition row_warning (row : element) : list warning :=
  match row_texts row with
  | Some (task, value) =>
      if in_list task TASKS then
        if in_list value TASK_STATES then [] else [UnknownState value task]
      else if String.eqb task TIME then []
      else if String.eqb task UPTIME then []
      else [UnknownRow task]
  | None => []
  end.

(** The state the last row for [task] writes. *)
Fixpoint last_task_state (rows : list element) (task : string) : option string :=
  match rows with
  | [] => None
  | row :: rest =>
      match last_task_state rest task with
      | Some v => Some v
      | None =>
          match task_update row with
          | Some (t, v) => if String.eqb t task then Some v else None
          | None => None
          end
      end
  end.

(** The float of the last uptime row. *)
Fixpoint last_uptime (rows : list element) : option Z :=
  match rows with
  | [] => None
  | row :: rest =>
      match last_uptime rest with
      | Some z => Some z
      | None =>
          match uptime_update row with
          | Some value =>
              match uptime_float value with
              | Ok z => Some z
              | Raise _ => None
              end
          | None => None
          end
      end
  end.

(** The value the last cell of [channel] with a number sets. *)
Fixpoint last_cell_value (channel_ids : list Z) (values : list (option string))
    (channel : Z) : option Q :=
  match channel_ids, values with
  | id :: channel_ids', value :: values' =>
      match last_cell_value channel_ids' values' channel with
      | Some q => Some q
      | None =>
          if Z.eqb id channel then
            match value with
            | Some cell => py_float <$> numeric_token cell
            | None => None
            end
          else None
      end
  | _, _ => None
  end.

Definition has_text (t : option string) : bool :=
  match t with Some _ => true | None => false end.

(** A data row that [update_signal] reads without an exception, in a table
    of [n] channels: a label with text and, when the label begins with a
    key of the table, [n] more cells, all with text. *)
Definition row_ok (table_name : string) (n : nat) (row : element) : bool :=
  match map text (findall "td" row), dict_get SIGNAL_DATA table_name with
  | Some label :: values, Some keys =>
      match first_prefix (Some label) keys with
      | Ok (Some _) => (length values =? n)%nat && forallb has_text values
      | _ => true
      end
  | _, _ => false
  end.

(** A table that [update_signal] reads without an exception: fewer than
    three rows, or a header with a name, a channel row whose cells [int]
    takes and data rows that are all fine. *)
Definition table_ok (table : element) : bool :=
  match findall2 "tbody" "tr" table with
  | header :: channels :: row :: rows =>
      match table_name_of header, channel_ids_of channels with
      | Ok name, Ok ids => forallb (row_ok name (length ids)) (row :: rows)
      | _, _ => false
      end
  | _ => true
  end.

(** How [update_status] ends on a fetch: with the exception of the fetch,
    or with that of the first uptime row that has one on a page that is
    [ok]. *)
Definition status_outcome (got : fetched) : outcome :=
  match got with
  | Failed e => Raised e
  | Response resp =>
      if negb (ok resp) then Done
      else match first_row_error (xpath_all "tr" (html resp)) with
           | Some e => Raised e
           | None => Done
           end
  end.

(** A fetch of the status page that [update_status] takes without an
    exception. *)
Definition status_ok (got : fetched) : bool :=
  match status_outcome got with
  | Done => true
  | Raised _ => false
  end.

(** A fetch of the signal page that [update_signal] takes without an
    exception. *)
Definition signal_ok (got : fetched) : bool :=
  match got with
  | Failed _ => false
  | Response resp =>
      negb (ok resp) || forallb table_ok (xpath_all "table" (html resp))
  end.

(** A sleep that returns: the refresh rate goes into a float, the time
    left is under 5 seconds or a number whose nanoseconds are below 2^63,
    and the operating system's sleep returns. *)
Definition sleep_ok (rate : Z) (got : turn) : bool :=
  match float_of_int rate, os_sleep got with
  | Ok r, Done =>
      let left := (start got + float_of_Z r - finish got)%float in
      let ns := (left * float_of_Z (10 ^ 9))%float in
      (left <? float_of_Z 5)%float
      || negb (PrimFloat.is_nan left)
         && (ns <=? float_of_Z (2 ^ 63))%float
         && negb (ns =? float_of_Z (2 ^ 63))%float
  | _, _ => false
  end.

(** A turn of the loop that goes through, at a refresh rate. *)
Definition turn_ok (rate : Z) (got : turn) : bool :=
  status_ok (status_fetch got) && signal_ok (signal_fetch got)
  && sleep_ok rate got.

(** A status page of the modem, with a state it does not know and a row
    the exporter does not know. *)
Definition status_page : response :=
  {| ok := true;
     html := Element "html" None
       [Element "table" None
          [tr [td "Cable Modem Status"; td "Booting"];
           tr [td " DOCSIS Ranging "; td "Done"];
           tr [td "Cable Modem Status"; td "Operational"];
           tr [td "System Up Time"; td "0 days 0h:12m:07s"];
           tr [td "Current Time and Date"; td "Jan 01 1970 00:12:30"];
           tr [td "Firmware"; td "7.6"];
           tr [td "only one cell"]]] |}.

(** The exporter after its first reading of [status_page]. *)
Definition after_status_page : SurfboardExporter :=
  fst (update_status (Response status_page) (init 30)).

(** A status page whose uptime is 2^53 + 1 seconds, which is no float. *)
Definition odd_uptime_page : response :=
  {| ok := true;
     html := tr [td "System Up Time"; td "104249991374 days 7h:36m:33s"] |}.

Definition after_odd_uptime_page : SurfboardExporter :=
  fst (update_status (Response odd_uptime_page) (init 30)).

(** A status page whose uptime is beyond the floats: days of 310 digits. *)
Definition huge_uptime_page : response :=
  {| ok := true;
     html := tr [td "System Up Time";
                 td (repeat_char 310 "9" +:+ " days 0h:0m:0s")] |}.

(** Every task metric is in one of its states. *)
Definition states_valid (self : SurfboardExporter) : Prop :=
  forall task e, tasks self !! task = Some e ->
    in_list (enum_state e) (enum_states e) = true.

(** What [update_signal] leaves alone. *)
Definition same_status (self self' : SurfboardExporter) : Prop :=
  tasks self' = tasks self /\ uptime self' = uptime self /\
  warnings self' = warnings self.

(** Every reading is still there. *)
Definition keeps_readings (self self' : SurfboardExporter) : Prop :=
  forall table key channel,
    is_Some (reading self table key channel) ->
    is_Some (reading self' table key channel).

(** How the exporter moves on: warnings are added at the end, readings
    stay, the uptime stays non-negative and the task states stay valid. *)
Definition evolves (self self' : SurfboardExporter) : Prop :=
  (exists more, warnings self' = warnings self ++ more) /\
  keeps_readings self self' /\
  (0 <= gauge_value (uptime self) -> 0 <= gauge_value (uptime self')) /\
  (states_valid self -> states_valid self').

(** [update_signal] touches the signals only, and there it only adds. *)
Definition signal_step (a b : SurfboardExporter) : Prop :=
  same_status a b /\ keeps_readings a b.

(** [update_status] leaves the signals alone. *)
Definition status_step (a b : SurfboardExporter) : Prop :=
  signals b = signals a /\ evolves a b.

(** The exporter after its first reading of a page with [downstream_table]. *)
Definition after_downstream : SurfboardExporter :=
  fst (update_signal (Response (page_of [downstream_table])) (init 30)).

(** A turn of the loop on two good pages, with a sleep that returns. *)
Definition good_turn : turn :=
  {| start := float_of_Z 1700000000;
     status_fetch := Response status_page;
     signal_fetch := Response (page_of [short_table; downstream_table]);
     finish := float_of_Z 1700000002;
     os_sleep := Done |}.

(** Two turns of the loop: a good one, then one whose status fetch fails. *)
Definition two_turns : list turn :=
  [good_turn;
   {| start := float_of_Z 1700000030;
      status_fetch := Failed RequestException;
      signal_fetch := Response (page_of [downstream_table]);
      finish := float_of_Z 1700000030;
      os_sleep := Done |}].

(** A data row of the Downstream table with a description after its label. *)
Definition described_power_row : element :=
  tr [td "Power Level: the downstream power"; td "5.1 dBmV"; td "4.9 dBmV";
      td "5.0 dBmV"].

(** * Properties *)

(** ** Facts about text *)

#[local] Arguments String.append !s1 s2.

Section TextFacts.

Lemma app_assoc_s (a b c : string) : (a +:+ b) +:+ c = a +:+ (b +:+ c).
Proof. induction a as [|x a IH]; simpl; [reflexivity | now rewrite IH]. Qed.

Lemma app_empty_r (a : string) : a +:+ EmptyString = a.
Proof. induction a as [|x a IH]; simpl; [reflexivity | now rewrite IH]. Qed.

Lemma take_drop (n : nat) (s : string) : take n s +:+ drop n s = s.
Proof.
  revert s; induction n as [|n IH]; intros [|c s]; simpl; try reflexivity.
  now rewrite IH.
Qed.

Lemma take_app_length (c r : string) : take (String.length c) (c +:+ r) = c.
Proof.
  induction c as [|x c IH]; simpl.
  - now destruct r.
  - now rewrite IH.
Qed.

Lemma drop_app_length (c r : string) : drop (String.length c) (c +:+ r) = r.
Proof. induction c as [|x c IH]; simpl; [reflexivity | exact IH]. Qed.

Lemma digit_run_le_length (s : string) : (digit_run s <= String.length s)%nat.
Proof.
  induction s as [|c s IH]; simpl; [lia |].
  destruct (is_digit c); lia.
Qed.

Lemma take_digit_run (n : nat) (s : string) :
  (n <= digit_run s)%nat ->
  all_digits (take n s) = true /\ String.length (take n s) = n.
Proof.
  revert s; induction n as [|n IH]; intros s Hn.
  - destruct s; simpl; auto.
  - destruct s as [|c s]; simpl in Hn; [lia |].
    destruct (is_digit c) eqn:Hc; [| lia].
    destruct (IH s) as [Hd Hl]; [lia |].
    simpl. rewrite Hc, Hd, Hl. auto.
Qed.

Lemma digit_run_app (ds rest : string) :
  all_digits ds = true -> starts_with_digit rest = false ->
  digit_run (ds +:+ rest) = String.length ds.
Proof.
  intros Hd Hr. induction ds as [|c ds IH]; simpl in *.
  - destruct rest as [|x rest]; simpl in *; [reflexivity | now rewrite Hr].
  - apply andb_prop in Hd as [Hc Hd]. rewrite Hc. now rewrite IH.
Qed.

Lemma strip_prefix_app (p s : string) : strip_prefix p (p +:+ s) = Some s.
Proof.
  induction p as [|c p IH]; simpl.
  - now destruct s.
  - now rewrite Ascii.eqb_refl.
Qed.

Lemma strip_prefix_Some (p s rest : string) :
  strip_prefix p s = Some rest -> s = p +:+ rest.
Proof.
  revert s; induction p as [|c p IH]; intros s H.
  - destruct s; simpl in H; now inversion H.
  - destruct s as [|x s]; simpl in H; [discriminate |].
    destruct (Ascii.eqb c x) eqn:E; [| discriminate].
    apply Ascii.eqb_eq in E as ->. simpl. now rewrite (IH s H).
Qed.

(** Two runs of digits, each closed by a character that is no digit, are
    the same run. *)
Lemma digits_then_stop (a b : string) (x y : ascii) (r1 r2 : string) :
  all_digits a = true -> all_digits b = true ->
  is_digit x = false -> is_digit y = false ->
  a +:+ String x r1 = b +:+ String y r2 ->
  a = b /\ x = y /\ r1 = r2.
Proof.
  revert b; induction a as [|c a IH]; intros [|d b] Ha Hb Hx Hy E;
    simpl in *.
  - now inversion E.
  - inversion E; subst. apply andb_prop in Hb as [Hd _]. congruence.
  - inversion E; subst. apply andb_prop in Ha as [Hc _]. congruence.
  - inversion E; subst.
    apply andb_prop in Ha as [_ Ha]. apply andb_prop in Hb as [_ Hb].
    destruct (IH b Ha Hb Hx Hy H1) as (-> & -> & ->). auto.
Qed.

Lemma digit_not_space (c : ascii) : is_digit c = true -> is_space c = false.
Proof.
  unfold is_digit, is_space. cbv zeta. intros H.
  apply andb_prop in H as [H1 H2].
  apply Nat.leb_le in H1. apply Nat.leb_le in H2.
  repeat (apply orb_false_iff; split).
  - apply andb_false_iff. right. apply Nat.leb_gt. lia.
  - apply andb_false_iff. right. apply Nat.leb_gt. lia.
  - apply Nat.eqb_neq. lia.
  - apply Nat.eqb_neq. lia.
Qed.

Lemma rstrip_digits (s : string) : all_digits s = true -> rstrip s = s.
Proof.
  induction s as [|c s IH]; simpl; [reflexivity |].
  intros H. apply andb_prop in H as [Hc Hs].
  rewrite (IH Hs). destruct s; [| reflexivity].
  now rewrite (digit_not_space c Hc).
Qed.

Lemma strip_digits (s : string) : all_digits s = true -> strip s = s.
Proof.
  intros H. unfold strip.
  assert (lstrip s = s) as ->.
  { destruct s as [|c s]; simpl in *; [reflexivity |].
    apply andb_prop in H as [Hc _]. now rewrite (digit_not_space c Hc). }
  now apply rstrip_digits.
Qed.

Lemma int_literal_digits (acc : Z) (s : string) :
  all_digits s = true -> int_literal acc true s = Some (int_digits_from acc s).
Proof.
  revert acc; induction s as [|c s IH]; intros acc H; simpl in *.
  - reflexivity.
  - apply andb_prop in H as [Hc Hs]. rewrite Hc. now apply IH.
Qed.

Lemma digit_not_int_space (c : ascii) :
  is_digit c = true -> is_int_space c = false.
Proof.
  unfold is_digit, is_int_space. cbv zeta. intros H.
  apply andb_prop in H as [H1 H2].
  apply Nat.leb_le in H1. apply Nat.leb_le in H2.
  repeat (apply orb_false_iff; split).
  - apply andb_false_iff. right. apply Nat.leb_gt. lia.
  - apply Nat.eqb_neq. lia.
  - apply Nat.eqb_neq. lia.
  - apply Nat.eqb_neq. lia.
Qed.

Lemma int_strip_digits (s : string) :
  all_digits s = true -> int_rstrip (int_lstrip s) = s.
Proof.
  intros H.
  assert (int_lstrip s = s) as ->.
  { destruct s as [|c s]; simpl in *; [reflexivity |].
    apply andb_prop in H as [Hc _]. now rewrite (digit_not_int_space c Hc). }
  induction s as [|c s IH]; simpl in *; [reflexivity |].
  apply andb_prop in H as [Hc Hs].
  rewrite (IH Hs). destruct s; [| reflexivity].
  now rewrite (digit_not_int_space c Hc).
Qed.

Lemma count_digits_all (s : string) :
  all_digits s = true -> count_digits s = String.length s.
Proof.
  induction s as [|c s IH]; simpl; [reflexivity |].
  intros H. apply andb_prop in H as [Hc Hs]. now rewrite Hc, IH.
Qed.

Lemma int_unsigned_digits (c : ascii) (s : string) :
  all_digits (String c s) = true ->
  int_unsigned (String c s) =
  if (String.length (String c s) <=? int_max_str_digits)%nat
  then Some (int_of_digits (String c s)) else None.
Proof.
  intros H. unfold int_unsigned. rewrite (count_digits_all _ H).
  destruct (_ <=? _)%nat; [| reflexivity].
  cbn [all_digits] in H. apply andb_prop in H as [Hc Hs].
  unfold int_of_digits. cbn [int_literal int_digits_from]. rewrite Hc.
  now apply int_literal_digits.
Qed.

(** [int] of a run of digits is its decimal value, up to the limit on the
    number of digits. *)
Lemma py_int_digits (c : ascii) (s : string) :
  all_digits (String c s) = true ->
  py_int (String c s) =
  if (String.length (String c s) <=? int_max_str_digits)%nat
  then Ok (int_of_digits (String c s)) else Raise ValueError.
Proof.
  intros H. unfold py_int. rewrite (int_strip_digits _ H).
  pose proof (int_unsigned_digits c s H) as Hu.
  cbn [all_digits] in H. apply andb_prop in H as [Hc Hs].
  destruct c as [[] [] [] [] [] [] [] []]; try discriminate Hc;
    cbv beta iota zeta; rewrite Hu; now destruct (_ <=? _)%nat.
Qed.

Lemma int_digits_from_nonneg (acc : Z) (s : string) :
  0 <= acc -> all_digits s = true -> 0 <= int_digits_from acc s.
Proof.
  revert acc; induction s as [|c s IH]; intros acc Ha H; simpl in *; [lia |].
  apply andb_prop in H as [Hc Hs]. apply IH; [| exact Hs].
  unfold is_digit in Hc. cbv zeta in Hc. apply andb_prop in Hc as [H1 _].
  apply Nat.leb_le in H1. unfold digit_value. lia.
Qed.

End TextFacts.

(** ** Facts about the matcher *)

Section MatcherFacts.
Context {A : Type}.

Lemma backoff_none (lo n : nat) (s : string) (k : string -> string -> option A) :
  (forall i, (lo <= i <= n)%nat -> k (take i s) (drop i s) = None) ->
  backoff lo n s k = None.
Proof.
  induction n as [|n IH]; intros H; cbn [backoff].
  - destruct (_ <? _)%nat eqn:E; [reflexivity |].
    apply Nat.ltb_ge in E.
    change (k (take 0 s) (drop 0 s) = None). apply H. lia.
  - destruct (_ <? _)%nat eqn:E; [reflexivity |].
    apply Nat.ltb_ge in E.
    rewrite (H (S n)) by lia. apply IH. intros i Hi. apply H. lia.
Qed.

Lemma backoff_inv (lo n : nat) (s : string) (k : string -> string -> option A) a :
  backoff lo n s k = Some a ->
  exists i, (lo <= i <= n)%nat /\ k (take i s) (drop i s) = Some a.
Proof.
  induction n as [|n IH]; cbn [backoff].
  - destruct (_ <? _)%nat eqn:E; [discriminate |].
    apply Nat.ltb_ge in E.
    intros H. exists 0%nat. split; [lia | exact H].
  - destruct (_ <? _)%nat eqn:E; [discriminate |].
    apply Nat.ltb_ge in E.
    destruct (k _ _) eqn:K.
    + intros [= ->]. exists (S n). split; [lia | exact K].
    + intros H. destruct (IH H) as (i & Hi & Hk).
      exists i. split; [lia | exact Hk].
Qed.

Lemma backoff_first (lo n : nat) (s : string) (k : string -> string -> option A) a :
  (lo <= n)%nat -> k (take n s) (drop n s) = Some a ->
  backoff lo n s k = Some a.
Proof.
  intros Hlo Hk. destruct n as [|n]; cbn [backoff].
  - assert (lo = 0%nat) as -> by lia. exact Hk.
  - destruct (_ <? _)%nat eqn:E.
    + apply Nat.ltb_lt in E. lia.
    + now rewrite Hk.
Qed.

Lemma digits_max_spec (hi : option nat) (s : string) (i : nat) :
  (i <= digits_max hi s)%nat ->
  (i <= digit_run s)%nat /\
  match hi with Some h => (i <= h)%nat | None => True end.
Proof. unfold digits_max. destruct hi; lia. Qed.

(** A match consumes a text of the pattern's language and hands the
    rest to the continuation. *)
Lemma run_inv (r : regex) : forall s gs (k : string -> string -> groups -> option A) a,
  run r s gs k = Some a ->
  exists c rest gs', s = c +:+ rest /\ lang r c /\ k c rest gs' = Some a.
Proof.
  induction r as [l | lo hi | r1 IH1 r2 IH2 | r IH | name r IH];
    intros s gs k a H; simpl in H.
  - destruct (strip_prefix l s) as [rest|] eqn:E; [| discriminate].
    exists l, rest, gs. split; [now apply strip_prefix_Some | now split].
  - apply backoff_inv in H as (i & Hi & Hk).
    destruct (digits_max_spec hi s i) as [Hrun Hhi]; [lia |].
    destruct (take_digit_run i s Hrun) as [Hd Hl].
    exists (take i s), (drop i s), gs.
    split; [now rewrite take_drop |]. split; [| exact Hk].
    simpl. rewrite Hl. split; [exact Hd |]. split; [lia | exact Hhi].
  - apply IH1 in H as (c1 & s1 & g1 & -> & L1 & H).
    apply IH2 in H as (c2 & s2 & g2 & -> & L2 & H).
    exists (c1 +:+ c2), s2, g2.
    split; [now rewrite app_assoc_s |]. split; [| exact H].
    simpl. now exists c1, c2.
  - destruct (run r s gs k) eqn:E.
    + injection H as ->.
      apply IH in E as (c & rest & g' & -> & L & E).
      exists c, rest, g'. split; [reflexivity |]. split; [now right | exact E].
    + exists EmptyString, s, gs. split; [reflexivity |]. split; [now left | exact H].
  - apply IH in H as (c & rest & g' & -> & L & H).
    exists c, rest, ((name, c) :: g'). now split.
Qed.

(** No match when the continuation rejects whatever the pattern can
    consume. *)
Lemma run_none (r : regex) : forall s gs (k : string -> string -> groups -> option A),
  (forall c rest gs', s = c +:+ rest -> lang r c -> k c rest gs' = None) ->
  run r s gs k = None.
Proof.
  induction r as [l | lo hi | r1 IH1 r2 IH2 | r IH | name r IH];
    intros s gs k H; simpl.
  - destruct (strip_prefix l s) as [rest|] eqn:E; [| reflexivity].
    apply H; [now apply strip_prefix_Some | reflexivity].
  - apply backoff_none. intros i Hi.
    destruct (digits_max_spec hi s i) as [Hrun Hhi]; [lia |].
    destruct (take_digit_run i s Hrun) as [Hd Hl].
    apply H; [now rewrite take_drop |].
    simpl. rewrite Hl. split; [exact Hd |]. split; [lia | exact Hhi].
  - apply IH1. intros c1 s1 g1 -> L1.
    apply IH2. intros c2 s2 g2 -> L2.
    apply H; [now rewrite app_assoc_s |]. simpl. now exists c1, c2.
  - rewrite IH.
    + apply H; [reflexivity | now left].
    + intros c rest g' -> L. apply H; [reflexivity | now right].
  - apply IH. intros c rest g' -> L. now apply H.
Qed.

(** A run of digits closed by a character that is no digit is taken
    whole when the continuation accepts it. *)
Lemma run_digits_greedy lo hi (ds rest : string) gs
    (k : string -> string -> groups -> option A) a :
  all_digits ds = true -> starts_with_digit rest = false ->
  (lo <= String.length ds)%nat ->
  match hi with Some h => (String.length ds <= h)%nat | None => True end ->
  k ds rest gs = Some a ->
  run (Digits lo hi) (ds +:+ rest) gs k = Some a.
Proof.
  intros Hd Hr Hlo Hhi Hk. simpl.
  assert (digits_max hi (ds +:+ rest) = String.length ds) as ->.
  { unfold digits_max. rewrite (digit_run_app _ _ Hd Hr). destruct hi; lia. }
  apply backoff_first; [exact Hlo |].
  now rewrite take_app_length, drop_app_length.
Qed.

End MatcherFacts.

(** ** The duration pattern *)

Section Duration.

Lemma run_seq {A} r1 r2 s gs (k : string -> string -> groups -> option A) :
  run (Seq r1 r2) s gs k =
  run r1 s gs (fun c1 s1 g1 => run r2 s1 g1 (fun c2 s2 g2 => k (c1 +:+ c2) s2 g2)).
Proof. reflexivity. Qed.

Lemma run_named {A} name r s gs (k : string -> string -> groups -> option A) :
  run (Named name r) s gs k = run r s gs (fun c s1 g1 => k c s1 ((name, c) :: g1)).
Proof. reflexivity. Qed.

Lemma run_opt {A} r s gs (k : string -> string -> groups -> option A) :
  run (Opt r) s gs k =
  match run r s gs k with Some a => Some a | None => k EmptyString s gs end.
Proof. reflexivity. Qed.

Lemma run_lit_app {A} (l rest : string) gs (k : string -> string -> groups -> option A) :
  run (Lit l) (l +:+ rest) gs k = k l rest gs.
Proof. simpl. now rewrite strip_prefix_app. Qed.

Lemma digit_text_spec lo hi s :
  digit_text lo hi s = true ->
  all_digits s = true /\ (lo <= String.length s)%nat /\
  match hi with Some h => (String.length s <= h)%nat | None => True end.
Proof.
  unfold digit_text. intros H.
  apply andb_prop in H as [H Hhi]. apply andb_prop in H as [Hd Hlo].
  apply Nat.leb_le in Hlo. repeat split; auto.
  destruct hi; [now apply Nat.leb_le | exact I].
Qed.

Lemma digit_text_lang lo hi s :
  lang (Digits lo hi) s -> digit_text lo hi s = true.
Proof.
  simpl. intros (Hd & Hlo & Hhi). unfold digit_text.
  rewrite Hd. apply Nat.leb_le in Hlo. rewrite Hlo. simpl.
  destruct hi; [now apply Nat.leb_le | reflexivity].
Qed.

(** Hours, minutes and seconds, after whatever came before. *)
Lemma run_hms {A} (h m s tail : string) gs
    (k : string -> string -> groups -> option A) a :
  digit_text 1 None h = true ->
  digit_text 1 (Some 2%nat) m = true ->
  digit_text 1 (Some 2%nat) s = true ->
  k (h +:+ "h:" +:+ m +:+ "m:" +:+ s +:+ "s") tail
    (("seconds", s) :: ("minutes", m) :: ("hours", h) :: gs) = Some a ->
  run (Seq (Named "hours" (Digits 1 None))
      (Seq (Lit "h:")
      (Seq (Named "minutes" (Digits 1 (Some 2%nat)))
      (Seq (Lit "m:")
      (Seq (Named "seconds" (Digits 1 (Some 2%nat)))
           (Lit "s"))))))
      (h +:+ "h:" +:+ m +:+ "m:" +:+ s +:+ "s" +:+ tail) gs k = Some a.
Proof.
  intros Hh Hm Hs Hk.
  apply digit_text_spec in Hh as (Hh1 & Hh2 & Hh3).
  apply digit_text_spec in Hm as (Hm1 & Hm2 & Hm3).
  apply digit_text_spec in Hs as (Hs1 & Hs2 & Hs3).
  rewrite run_seq, run_named.
  apply (run_digits_greedy 1 None h);
    [exact Hh1 | reflexivity | exact Hh2 | exact Hh3 |].
  rewrite run_seq, run_lit_app, run_seq, run_named.
  apply (run_digits_greedy 1 (Some 2%nat) m);
    [exact Hm1 | reflexivity | exact Hm2 | exact Hm3 |].
  rewrite run_seq, run_lit_app, run_seq, run_named.
  apply (run_digits_greedy 1 (Some 2%nat) s);
    [exact Hs1 | reflexivity | exact Hs2 | exact Hs3 |].
  rewrite run_lit_app. exact Hk.
Qed.

(** A text of digits followed by ["h"] does not begin with a days group. *)
Lemma no_days_group {A} (h rest : string) gs
    (k : string -> string -> groups -> option A) :
  all_digits h = true ->
  run (Seq (Named "days" (Digits 1 None)) (Lit " days "))
      (h +:+ String "h" rest) gs k = None.
Proof.
  intros Hh. apply run_none. intros c r g' E L.
  simpl in L. destruct L as (c1 & c2 & -> & (Hc1 & _) & ->).
  rewrite app_assoc_s in E. simpl in E.
  destruct (digits_then_stop h c1 "h" " " _ _ Hh Hc1 eq_refl eq_refl E)
    as (_ & Habs & _).
  discriminate Habs.
Qed.

(** What [DURATION_RE.match] captures on a duration. *)
Lemma duration_match (days : option string) (h m s tail : string) :
  duration_fields days h m s = true ->
  exists g0,
    rmatch DURATION_RE (duration_text days h m s +:+ tail) =
    Some {| group0 := g0;
            captured := ("seconds", s) :: ("minutes", m) :: ("hours", h)
                        :: match days with Some d => [("days", d)] | None => [] end |}.
Proof.
  unfold duration_fields. intros H.
  apply andb_prop in H as [H Hs]. apply andb_prop in H as [H Hm].
  apply andb_prop in H as [Hd Hh].
  unfold rmatch, DURATION_RE.
  destruct days as [d|]; eexists; rewrite run_seq, run_opt;
    unfold duration_text; rewrite !app_assoc_s.
  - apply digit_text_spec in Hd as (Hd1 & Hd2 & _).
    match goal with |- match ?x with _ => _ end = _ =>
      assert (Hx : x = Some {| group0 := (d +:+ " days ") +:+ h +:+ "h:" +:+ m +:+ "m:" +:+ s +:+ "s";
                     captured := [("seconds", s); ("minutes", m); ("hours", h); ("days", d)] |})
    end.
    { rewrite run_seq, run_named.
      apply (run_digits_greedy 1 None d);
        [exact Hd1 | reflexivity | exact Hd2 | exact I |].
      rewrite run_lit_app.
      apply (run_hms h m s tail); [exact Hh | exact Hm | exact Hs | reflexivity]. }
    rewrite Hx. reflexivity.
  - apply digit_text_spec in Hh as (Hh1 & Hh2 & Hh3).
    rewrite (no_days_group h (":" +:+ m +:+ "m:" +:+ s +:+ "s" +:+ tail)) by exact Hh1.
    apply (run_hms h m s tail [] (fun c2 s2 g2 =>
             Some {| group0 := EmptyString +:+ c2; captured := g2 |}));
      [| exact Hm | exact Hs | reflexivity].
    unfold digit_text. rewrite Hh1. apply Nat.leb_le in Hh2. now rewrite Hh2.
Qed.

(** The seconds in a text that begins with a duration: the sum, or the
    [ValueError] of [int] on a group of too many digits. *)
Lemma uptime_seconds_duration (days : option string) (h m s tail : string) :
  duration_fields days h m s = true ->
  uptime_seconds (duration_text days h m s +:+ tail) =
  if within_int_limit days h
  then Ok (days_value days * 86400 + int_of_digits h * 3600
           + int_of_digits m * 60 + int_of_digits s)
  else Raise ValueError.
Proof.
  intros H. destruct (duration_match days h m s tail H) as [g0 Hm].
  unfold uptime_seconds. rewrite Hm. clear Hm.
  unfold duration_fields in H.
  apply andb_prop in H as [H Hs]. apply andb_prop in H as [H Hm].
  apply andb_prop in H as [Hd Hh].
  apply digit_text_spec in Hh as (Hh & Hhl & _).
  apply digit_text_spec in Hm as (Hm & Hml & Hmu).
  apply digit_text_spec in Hs as (Hs & Hsl & Hsu).
  assert (Lm : (String.length m <=? int_max_str_digits)%nat = true)
    by (apply Nat.leb_le; unfold int_max_str_digits; lia).
  assert (Ls : (String.length s <=? int_max_str_digits)%nat = true)
    by (apply Nat.leb_le; unfold int_max_str_digits; lia).
  destruct h as [|hc h]; [simpl in Hhl; lia |].
  destruct m as [|mc m]; [simpl in Hml; lia |].
  destruct s as [|sc s]; [simpl in Hsl; lia |].
  unfold within_int_limit.
  destruct days as [d|].
  - apply digit_text_spec in Hd as (Hd & Hdl & _).
    destruct d as [|dc d]; [simpl in Hdl; lia |].
    cbn -[py_int int_of_digits Z.mul Z.add Nat.leb String.length
          int_max_str_digits].
    rewrite !py_int_digits by assumption. rewrite Lm, Ls.
    destruct (String.length (String dc d) <=? int_max_str_digits)%nat;
      [| reflexivity].
    destruct (String.length (String hc h) <=? int_max_str_digits)%nat;
      [| reflexivity].
    cbn -[int_of_digits Z.mul Z.add]. f_equal. lia.
  - cbn -[py_int int_of_digits Z.mul Z.add Nat.leb String.length
          int_max_str_digits].
    rewrite !py_int_digits by assumption. rewrite Lm, Ls.
    destruct (String.length (String hc h) <=? int_max_str_digits)%nat;
      [| reflexivity].
    cbn -[int_of_digits Z.mul Z.add]. f_equal. lia.
Qed.

Lemma duration_fields_nonneg (days : option string) (h m s : string) :
  duration_fields days h m s = true ->
  0 <= days_value days /\ 0 <= int_of_digits h /\
  0 <= int_of_digits m /\ 0 <= int_of_digits s.
Proof.
  unfold duration_fields. intros H.
  apply andb_prop in H as [H Hs]. apply andb_prop in H as [H Hm].
  apply andb_prop in H as [Hd Hh].
  apply digit_text_spec in Hh as (Hh & _).
  apply digit_text_spec in Hm as (Hm & _).
  apply digit_text_spec in Hs as (Hs & _).
  repeat split; try (apply int_digits_from_nonneg; [lia | assumption]).
  destruct days as [d|]; simpl; [| lia].
  apply digit_text_spec in Hd as (Hd & _).
  apply int_digits_from_nonneg; [lia | assumption].
Qed.

(** A match of [DURATION_RE] is on a text that begins with a duration. *)
Lemma duration_match_inv (value : string) (mo : match_object) :
  rmatch DURATION_RE value = Some mo -> duration_prefix value.
Proof.
  unfold rmatch. intros H.
  apply run_inv in H as (c & tail & _ & -> & L & _).
  unfold DURATION_RE in L. cbn [lang] in L.
  destruct L as (c1 & c2 & -> & Hdays & h & c3 & -> & Hh & l1 & c4 & -> & ->
                 & m & c5 & -> & Hm & l2 & c6 & -> & -> & s & l3 & -> & Hs & ->).
  pose proof (digit_text_lang 1 None h Hh) as Fh.
  pose proof (digit_text_lang 1 (Some 2%nat) m Hm) as Fm.
  pose proof (digit_text_lang 1 (Some 2%nat) s Hs) as Fs.
  destruct Hdays as [-> | (d & l0 & -> & Hd & ->)].
  - exists None, h, m, s, tail. split.
    + unfold duration_fields. now rewrite Fh, Fm, Fs.
    + reflexivity.
  - pose proof (digit_text_lang 1 None d Hd) as Fd.
    exists (Some d), h, m, s, tail. split.
    + unfold duration_fields. now rewrite Fd, Fh, Fm, Fs.
    + unfold duration_text. now rewrite !app_assoc_s.
Qed.

End Duration.

(** ** Loops *)

Section LoopFacts.
Context {S A : Type} (body : A -> S -> S * outcome).

Lemma for_each_app (l1 l2 : list A) (st : S) :
  for_each body (l1 ++ l2) st =
  match for_each body l1 st with
  | (st', Done) => for_each body l2 st'
  | stopped => stopped
  end.
Proof.
  revert st; induction l1 as [|x l1 IH]; intros st; simpl; [reflexivity |].
  destruct (body x st) as [st' [|e]]; [apply IH | reflexivity].
Qed.

(** A relation that every turn keeps is kept by the loop. *)
Lemma for_each_preserves (R : S -> S -> Prop) :
  (forall st, R st st) ->
  (forall a b c, R a b -> R b c -> R a c) ->
  (forall x st, R st (fst (body x st))) ->
  forall l st, R st (fst (for_each body l st)).
Proof.
  intros Hrefl Htrans Hbody l. induction l as [|x l IH]; intros st; simpl.
  - apply Hrefl.
  - pose proof (Hbody x st) as Hx.
    destruct (body x st) as [st' [|e]]; simpl in *.
    + eapply Htrans; [exact Hx | apply IH].
    + exact Hx.
Qed.

(** A property that every turn keeps is kept by the loop. *)
Lemma for_each_invariant (P : S -> Prop) :
  (forall x st, P st -> P (fst (body x st))) ->
  forall l st, P st -> P (fst (for_each body l st)).
Proof.
  intros Hbody l. induction l as [|x l IH]; intros st Hst; simpl.
  - exact Hst.
  - pose proof (Hbody x st Hst) as Hx.
    destruct (body x st) as [st' [|e]]; simpl in *; [now apply IH | exact Hx].
Qed.

(** A loop that meets an element on which the body always raises ends
    with an exception. *)
Lemma for_each_raises (l1 l2 : list A) (x : A) :
  (forall st, exists e, snd (body x st) = Raised e) ->
  forall st, exists e, snd (for_each body (l1 ++ x :: l2) st) = Raised e.
Proof.
  intros Hx st. rewrite for_each_app.
  destruct (for_each body l1 st) as [st' [|e]]; simpl.
  - destruct (Hx st') as [e He].
    destruct (body x st') as [st'' [|e']]; simpl in *; [discriminate | eauto].
  - eauto.
Qed.

(** An element on which the body does nothing can be left out. *)
Lemma for_each_skip (l1 l2 : list A) (x : A) :
  (forall st, body x st = (st, Done)) ->
  forall st, for_each body (l1 ++ x :: l2) st = for_each body (l1 ++ l2) st.
Proof.
  intros Hx st. rewrite !for_each_app.
  destruct (for_each body l1 st) as [st' [|e]]; [| reflexivity].
  simpl. now rewrite Hx.
Qed.

End LoopFacts.

(** ** The metrics an exporter holds *)

Section Registry.

Lemma same_names_refl self : same_names self self.
Proof. now repeat split. Qed.

Lemma same_names_trans a b c : same_names a b -> same_names b c -> same_names a c.
Proof.
  intros (H1 & H2 & H3) (K1 & K2 & K3).
  repeat split; congruence.
Qed.

Lemma fmap_insert_same {K V W} `{Countable K} (f : V -> W) (m : gmap K V) i x y :
  m !! i = Some x -> f y = f x -> f <$> <[i := y]> m = f <$> m.
Proof.
  intros Hi Hf. rewrite fmap_insert, Hf.
  apply insert_id. now rewrite lookup_fmap, Hi.
Qed.

Lemma set_task_state_names task value self :
  same_names self (fst (set_task_state task value self)).
Proof.
  unfold set_task_state.
  destruct (tasks self !! task) as [e|] eqn:E; [| apply same_names_refl].
  destruct (in_list value (enum_states e)); [| apply same_names_refl].
  simpl. repeat split; simpl.
  now apply (fmap_insert_same enum_name _ _ e).
Qed.

Lemma set_signal_names table key channel v self :
  same_names self (fst (set_signal table key channel v self)).
Proof.
  unfold set_signal.
  destruct (signals self !! (table, key)) as [g|] eqn:E; [| apply same_names_refl].
  simpl. repeat split; simpl.
  now apply (fmap_insert_same cg_name _ _ g).
Qed.

Lemma log_warning_names w self : same_names self (log_warning w self).
Proof. now repeat split. Qed.

Lemma set_uptime_names v self : same_names self (fst (set_uptime v self)).
Proof. unfold set_uptime. now destruct (float_of_int v). Qed.

Lemma status_row_names row self : same_names self (fst (status_row row self)).
Proof.
  unfold status_row.
  destruct (_ || _); [apply same_names_refl |].
  destruct (map text (getchildren row)) as [|[t|] [|[v|] [|? ?]]];
    try apply same_names_refl.
  destruct (in_list (strip t) TASKS).
  - destruct (in_list (strip v) TASK_STATES).
    + apply set_task_state_names.
    + pose proof (set_task_state_names (strip t) "Other" self) as Hn.
      destruct (set_task_state _ _ self) as [self' [|e]]; simpl in *; [| exact Hn].
      eapply same_names_trans; [exact Hn | apply log_warning_names].
  - destruct (String.eqb _ TIME); [apply same_names_refl |].
    destruct (String.eqb _ UPTIME); [| apply log_warning_names].
    destruct (uptime_seconds _); [apply set_uptime_names | apply same_names_refl].
Qed.

Lemma signal_cells_names table key ids values :
  forall self, same_names self (fst (signal_cells table key ids values self)).
Proof.
  revert values; induction ids as [|c ids IH]; intros [|[cell|] values] self;
    simpl; try apply same_names_refl.
  destruct (rmatch FLOAT_RE cell) as [mo|]; [| apply IH].
  pose proof (set_signal_names table key c (py_float (group0 mo)) self) as Hn.
  destruct (set_signal _ _ _ _ self) as [self' [|e]]; simpl in *; [| exact Hn].
  eapply same_names_trans; [exact Hn | apply IH].
Qed.

Lemma signal_row_names table ids row self :
  same_names self (fst (signal_row table ids row self)).
Proof.
  unfold signal_row.
  destruct (map text (findall "td" row)) as [|key values];
    [apply same_names_refl |].
  destruct (dict_get SIGNAL_DATA table) as [keys|]; [| apply same_names_refl].
  destruct (first_prefix key keys) as [[[|c k]|]|]; try apply same_names_refl.
  apply signal_cells_names.
Qed.

Lemma signal_table_names table self :
  same_names self (fst (signal_table table self)).
Proof.
  unfold signal_table.
  destruct (_ <? _)%nat; [apply same_names_refl |].
  destruct (findall2 "tbody" "tr" table) as [|header [|channels rows]];
    try apply same_names_refl.
  destruct (table_name_of header); [| apply same_names_refl].
  destruct (channel_ids_of channels); [| apply same_names_refl].
  apply for_each_preserves;
    [apply same_names_refl | apply same_names_trans |].
  intros. apply signal_row_names.
Qed.

Lemma update_status_names got self :
  same_names self (fst (update_status got self)).
Proof.
  destruct got as [resp|e]; unfold update_status; [| apply same_names_refl].
  destruct (negb (ok resp)); [apply same_names_refl |].
  apply for_each_preserves;
    [apply same_names_refl | apply same_names_trans | apply status_row_names].
Qed.

Lemma update_signal_names got self :
  same_names self (fst (update_signal got self)).
Proof.
  destruct got as [resp|e]; unfold update_signal; [| apply same_names_refl].
  destruct (negb (ok resp)); [apply same_names_refl |].
  apply for_each_preserves;
    [apply same_names_refl | apply same_names_trans | apply signal_table_names].
Qed.

(** The sleep changes nothing of the exporter. *)
Lemma sleep_keeps got self : fst (sleep_until_next got self) = self.
Proof.
  unfold sleep_until_next.
  destruct (float_of_int _); [| reflexivity].
  now destruct (_ <? _)%float.
Qed.

(** What both parsers keep, a turn of the loop keeps. *)
Lemma poll_preserves (R : SurfboardExporter -> SurfboardExporter -> Prop) :
  (forall a, R a a) ->
  (forall a b c, R a b -> R b c -> R a c) ->
  (forall got self, R self (fst (update_status got self))) ->
  (forall got self, R self (fst (update_signal got self))) ->
  forall got self, R self (fst (poll got self)).
Proof.
  intros Hrefl Htrans Hstatus Hsignal got self. unfold poll.
  pose proof (Hstatus (status_fetch got) self) as H1.
  destruct (update_status (status_fetch got) self) as [s1 [|e]];
    cbn [fst] in *; [| exact H1].
  pose proof (Hsignal (signal_fetch got) s1) as H2.
  destruct (update_signal (signal_fetch got) s1) as [s2 [|e]];
    cbn [fst] in *; [| now apply (Htrans self s1 s2)].
  rewrite sleep_keeps. now apply (Htrans self s1 s2).
Qed.

Lemma poll_names got self : same_names self (fst (poll got self)).
Proof.
  apply poll_preserves;
    [apply same_names_refl | apply same_names_trans
    | apply update_status_names | apply update_signal_names].
Qed.

Lemma main_loop_names fetches self :
  same_names self (fst (main_loop fetches self)).
Proof.
  unfold main_loop. apply for_each_preserves;
    [apply same_names_refl | apply same_names_trans | apply poll_names].
Qed.

Lemma same_names_metric_names self self' :
  same_names self self' -> metric_names self' = metric_names self.
Proof. intros (H1 & H2 & H3). unfold metric_names. now rewrite H1, H2, H3. Qed.

End Registry.

(** ** The schedules stay registered *)

Section Registered.

Lemma in_list_spec x l : in_list x l = true <-> In x l.
Proof.
  unfold in_list. rewrite existsb_exists. split.
  - intros (y & Hy & E). apply String.eqb_eq in E. now subst.
  - intros H. exists x. split; [exact H | apply String.eqb_refl].
Qed.

Lemma dict_get_In {V} (d : list (string * V)) key v :
  dict_get d key = Some v -> In (key, v) d.
Proof.
  induction d as [|[k w] d IH]; simpl; [discriminate |].
  destruct (String.eqb_spec k key) as [-> |].
  - intros [= ->]. now left.
  - intros H. right. now apply IH.
Qed.

Lemma init_registered r : registered (init r).
Proof.
  split.
  - intros task H. apply in_list_spec in H. simpl in H.
    repeat (destruct H as [<- | H];
            [eexists; split; [vm_compute; reflexivity | reflexivity] |]).
    contradiction.
  - intros table keys key Hk Hin. apply dict_get_In in Hk. simpl in Hk.
    repeat (destruct Hk as [[= <- <-] | Hk];
            [simpl in Hin;
             repeat (destruct Hin as [<- | Hin]; [vm_compute; eauto |]);
             contradiction |]).
    contradiction.
Qed.

Lemma set_task_state_registered task value self :
  registered self -> registered (fst (set_task_state task value self)).
Proof.
  intros [Ht Hs]. unfold set_task_state.
  destruct (tasks self !! task) as [e|] eqn:E; [| now split].
  destruct (in_list value (enum_states e)); [| now split].
  split; [| exact Hs]. simpl. intros t Hin.
  destruct (decide (task = t)) as [<- | Hne].
  - rewrite lookup_insert_eq. destruct (Ht task Hin) as (e' & He' & Hst).
    eexists; split; [reflexivity |]. simpl. congruence.
  - rewrite lookup_insert_ne by exact Hne. now apply Ht.
Qed.

Lemma set_signal_registered table key channel v self :
  registered self -> registered (fst (set_signal table key channel v self)).
Proof.
  intros [Ht Hs]. unfold set_signal.
  destruct (signals self !! (table, key)) as [g|] eqn:E; [| now split].
  split; [exact Ht |]. simpl. intros tb ks k Hk Hin.
  destruct (decide ((table, key) = (tb, k))) as [<- | Hne].
  - rewrite lookup_insert_eq. eauto.
  - rewrite lookup_insert_ne by exact Hne. now apply (Hs tb ks).
Qed.

Lemma status_row_registered row self :
  registered self -> registered (fst (status_row row self)).
Proof.
  intros Hr. unfold status_row.
  destruct (_ || _); [exact Hr |].
  destruct (map text (getchildren row)) as [|[t|] [|[v|] [|? ?]]]; try exact Hr.
  destruct (in_list (strip t) TASKS).
  - destruct (in_list (strip v) TASK_STATES).
    + now apply set_task_state_registered.
    + pose proof (set_task_state_registered (strip t) "Other" self Hr) as Hn.
      destruct (set_task_state _ _ self) as [self' [|e]]; exact Hn.
  - destruct (String.eqb _ TIME); [exact Hr |].
    destruct (String.eqb _ UPTIME); [| exact Hr].
    destruct (uptime_seconds _) as [z|]; [| exact Hr].
    unfold set_uptime. destruct (float_of_int z); exact Hr.
Qed.

Lemma signal_cells_registered table key ids values :
  forall self, registered self ->
    registered (fst (signal_cells table key ids values self)).
Proof.
  revert values; induction ids as [|c ids IH]; intros [|[cell|] values] self Hr;
    simpl; try exact Hr.
  destruct (rmatch FLOAT_RE cell) as [mo|]; [| now apply IH].
  pose proof (set_signal_registered table key c (py_float (group0 mo)) self Hr) as Hn.
  destruct (set_signal _ _ _ _ self) as [self' [|e]]; simpl in *; [| exact Hn].
  now apply IH.
Qed.

Lemma signal_table_registered table self :
  registered self -> registered (fst (signal_table table self)).
Proof.
  intros Hr. unfold signal_table.
  destruct (_ <? _)%nat; [exact Hr |].
  destruct (findall2 "tbody" "tr" table) as [|header [|channels rows]];
    try exact Hr.
  destruct (table_name_of header) as [name|]; [| exact Hr].
  destruct (channel_ids_of channels) as [ids|]; [| exact Hr].
  apply for_each_invariant; [| exact Hr].
  intros row st Hst. unfold signal_row.
  destruct (map text (findall "td" row)) as [|key values]; [exact Hst |].
  destruct (dict_get SIGNAL_DATA name) as [keys|]; [| exact Hst].
  destruct (first_prefix key keys) as [[[|c k]|]|]; try exact Hst.
  now apply signal_cells_registered.
Qed.

Lemma update_status_registered got self :
  registered self -> registered (fst (update_status got self)).
Proof.
  intros Hreg. destruct got as [resp|e]; unfold update_status; [| exact Hreg].
  destruct (negb (ok resp)); [exact Hreg |].
  apply for_each_invariant; [| exact Hreg].
  intros. now apply status_row_registered.
Qed.

Lemma update_signal_registered got self :
  registered self -> registered (fst (update_signal got self)).
Proof.
  intros Hreg. destruct got as [resp|e]; unfold update_signal; [| exact Hreg].
  destruct (negb (ok resp)); [exact Hreg |].
  apply for_each_invariant; [| exact Hreg].
  intros. now apply signal_table_registered.
Qed.

(** The parsers and the loop keep the schedules registered. *)
Lemma main_loop_registered fetches self :
  registered self -> registered (fst (main_loop fetches self)).
Proof.
  unfold main_loop. apply for_each_invariant. intros got st.
  apply (poll_preserves (fun a b => registered a -> registered b)); auto.
  - intros got' self'. apply update_status_registered.
  - intros got' self'. apply update_signal_registered.
Qed.

End Registered.

(** ** The status page *)

Section StatusRows.

(** A row of two cells with text is read as a label and a value. *)
Lemma status_row_pair row t v self :
  map text (getchildren row) = [Some t; Some v] ->
  t <> EmptyString -> v <> EmptyString ->
  status_row row self =
  let task := strip t in
  let value := strip v in
  if in_list task TASKS then
    if in_list value TASK_STATES then set_task_state task value self
    else
      match set_task_state task "Other" self with
      | (self', Done) => (log_warning (UnknownState value task) self', Done)
      | stopped => stopped
      end
  else if String.eqb task TIME then (self, Done)
  else if String.eqb task UPTIME then
    match uptime_seconds value with
    | Ok seconds => set_uptime seconds self
    | Raise e => (self, Raised e)
    end
  else (log_warning (UnknownRow task) self, Done).
Proof.
  intros Hv Ht Hv'. unfold status_row. rewrite Hv.
  destruct t; [contradiction |]. destruct v; [contradiction |]. reflexivity.
Qed.

Lemma strip_nonempty t : strip t <> EmptyString -> t <> EmptyString.
Proof. intros H ->. now apply H. Qed.

(** The uptime row: its value goes through the duration parser. *)
Lemma status_row_uptime row t v self :
  map text (getchildren row) = [Some t; Some v] ->
  strip t = UPTIME -> v <> EmptyString ->
  status_row row self =
  match uptime_seconds (strip v) with
  | Ok seconds => set_uptime seconds self
  | Raise e => (self, Raised e)
  end.
Proof.
  intros Hv Ht Hv'. rewrite (status_row_pair row t v self Hv); [| | exact Hv'].
  - cbv zeta. rewrite Ht. reflexivity.
  - apply strip_nonempty. rewrite Ht. discriminate.
Qed.

(** [update_status] at one row of its page. *)
Lemma update_status_at_row resp pre row post self0 self :
  ok resp = true ->
  xpath_all "tr" (html resp) = pre ++ row :: post ->
  for_each status_row pre self0 = (self, Done) ->
  update_status (Response resp) self0 =
  match status_row row self with
  | (self', Done) => for_each status_row post self'
  | stopped => stopped
  end.
Proof.
  intros Hok Hrows Hpre. unfold update_status. rewrite Hok. cbn [negb].
  now rewrite Hrows, for_each_app, Hpre.
Qed.

(** An exception of [update_status] ends the turn and the loop. *)
Lemma main_loop_status_raises got turns self self' e :
  update_status (status_fetch got) self = (self', Raised e) ->
  main_loop (got :: turns) self = (self', Raised e).
Proof.
  intros H. unfold main_loop. cbn [for_each]. unfold poll. now rewrite H.
Qed.

Lemma float_of_int_small n : 0 <= n < 2 ^ 53 -> float_of_int n = Ok n.
Proof.
  intros [H0 H1]. unfold float_of_int. cbv zeta.
  destruct (Z.leb_spec (Z.log2 (Z.abs n) - 52) 0) as [_ | Hlog]; [reflexivity |].
  exfalso. rewrite Z.abs_eq in Hlog by exact H0.
  assert (0 < n) by (destruct (Z.eq_dec n 0) as [-> |]; [discriminate Hlog || (cbn in Hlog; lia) | lia]).
  assert (Z.log2 n < 53) by (apply Z.log2_lt_pow2; lia). lia.
Qed.

Lemma float_of_int_nonneg n f : 0 <= n -> float_of_int n = Ok f -> 0 <= f.
Proof.
  intros H0. unfold float_of_int. cbv zeta.
  destruct (_ <=? 0); [now intros [= <-] |].
  destruct (2 ^ 1024 <=? _); [discriminate |]. intros [= <-].
  apply Z.mul_nonneg_nonneg; [lia |].
  apply Z.shiftl_nonneg.
  assert (0 <= Z.shiftr (Z.abs n) (Z.log2 (Z.abs n) - 52))
    by (apply Z.shiftr_nonneg; lia).
  destruct (_ || _); lia.
Qed.

Lemma float_of_int_raise n e : float_of_int n = Raise e -> e = OverflowError.
Proof.
  unfold float_of_int. cbv zeta.
  destruct (_ <=? 0); [discriminate |].
  destruct (2 ^ 1024 <=? _); [now intros [= <-] | discriminate].
Qed.

End StatusRows.

(** C1, as the program has it. On every text that begins with a duration
    [[<days> days ]<hours>h:<minutes>m:<seconds>s] whose days and hours
    have no more digits than [int] takes (4300), the duration parser (the
    uptime branch of [update_status]) gives
    days*86400 + hours*3600 + minutes*60 + seconds, a missing days group
    counting for 0; with more digits [int] raises [ValueError]. The uptime
    row of the status page hands the total to the uptime gauge, which
    holds it as a float, the total itself below 2^53, and [update_status]
    goes on with the rows after it. *)
Theorem duration_total_seconds (days : option string) (h m s tail : string) :
  duration_fields days h m s = true ->
  let value := duration_text days h m s +:+ tail in
  let total := days_value days * 86400 + int_of_digits h * 3600
               + int_of_digits m * 60 + int_of_digits s in
  uptime_seconds value =
    (if within_int_limit days h then Ok total else Raise ValueError) /\
  0 <= total /\
  (forall row t v self,
     map text (getchildren row) = [Some t; Some v] ->
     strip t = UPTIME -> strip v = value ->
     status_row row self =
     if within_int_limit days h then set_uptime total self
     else (self, Raised ValueError)) /\
  (forall self, total < 2 ^ 53 ->
     set_uptime total self = (store_uptime total self, Done)) /\
  (forall resp pre row post t v self0 self,
     ok resp = true ->
     xpath_all "tr" (html resp) = pre ++ row :: post ->
     for_each status_row pre self0 = (self, Done) ->
     map text (getchildren row) = [Some t; Some v] ->
     strip t = UPTIME -> strip v = value ->
     update_status (Response resp) self0
     = if within_int_limit days h then
         match set_uptime total self with
         | (self', Done) => for_each status_row post self'
         | stopped => stopped
         end
       else (self, Raised ValueError)).
Proof.
  intros H value total.
  pose proof (uptime_seconds_duration days h m s tail H) as Hsec.
  fold value total in Hsec.
  assert (Hpos : 0 <= total).
  { pose proof (duration_fields_nonneg days h m s H). subst total. lia. }
  assert (Hrow : forall row t v self,
     map text (getchildren row) = [Some t; Some v] ->
     strip t = UPTIME -> strip v = value ->
     status_row row self =
     if within_int_limit days h then set_uptime total self
     else (self, Raised ValueError)).
  { intros row t v self Hv Ht Hval.
    rewrite (status_row_uptime row t v self Hv Ht).
    - rewrite Hval, Hsec. now destruct (within_int_limit days h).
    - intros ->. rewrite <- Hval in Hsec. cbn in Hsec.
      now destruct (within_int_limit days h). }
  assert (Hset : forall self, total < 2 ^ 53 ->
     set_uptime total self = (store_uptime total self, Done)).
  { intros self Hlt. unfold set_uptime.
    now rewrite float_of_int_small by lia. }
  split; [exact Hsec |]. split; [exact Hpos |]. split; [exact Hrow |].
  split; [exact Hset |].
  intros resp pre row post t v self0 self Hok Hrows Hpre Hv Ht Hval.
  rewrite (update_status_at_row resp pre row post self0 self Hok Hrows Hpre).
  rewrite (Hrow row t v self Hv Ht Hval).
  now destruct (within_int_limit days h).
Qed.

Lemma duration_total_seconds_examples :
  uptime_seconds "1 days 02h:03m:04s" = Ok 93784 /\
  uptime_seconds "05h:00m:09s" = Ok 18009 /\
  gauge_value
    (uptime (fst (update_status
       (Response {| ok := true;
                    html := tr [td "System Up Time"; td "1 days 02h:03m:04s"] |})
       (init 30)))) = 93784.
Proof.
  split; [| split].
  - exact (proj1 (duration_total_seconds (Some "1") "02" "03" "04" "" eq_refl)).
  - exact (proj1 (duration_total_seconds None "05" "00" "09" "" eq_refl)).
  - rewrite (proj2 (proj2 (proj2 (proj2
               (duration_total_seconds (Some "1") "02" "03" "04" "" eq_refl))))
               {| ok := true;
                  html := tr [td "System Up Time"; td "1 days 02h:03m:04s"] |}
               [] (tr [td "System Up Time"; td "1 days 02h:03m:04s"]) []
               "System Up Time" "1 days 02h:03m:04s" (init 30) (init 30)
               eq_refl eq_refl eq_refl eq_refl eq_refl eq_refl).
    reflexivity.
Defined.

(** C1 as the spec words it does not hold: a text of the pattern whose
    days have 4301 digits makes [int] raise, and no total is returned. *)
Lemma long_days_rejected :
  duration_fields (Some long_days) "00" "00" "00" = true /\
  rmatch spec_duration_pattern (duration_text (Some long_days) "00" "00" "00")
  <> None /\
  uptime_seconds (duration_text (Some long_days) "00" "00" "00")
  = Raise ValueError.
Proof.
  split; [vm_compute; reflexivity |].
  split; [vm_compute; discriminate | vm_compute; reflexivity].
Qed.

(** C7, as the program has it. The duration parser fails with the
    [AttributeError] of [None.groupdict()] exactly on the texts that do not
    begin with a duration whose days and hours are one or more digits and
    whose minutes and seconds are one or two digits. On a text that begins
    with one it succeeds when the days and hours have no more digits than
    [int] takes (4300) and fails with the [ValueError] of [int] when they
    have more. On the uptime row of the status page either failure leaves
    [update_status] and the loop as an exception. *)
Theorem duration_failure_iff_no_prefix (value : string) :
  (uptime_seconds value = Raise AttributeError <-> ~ duration_prefix value) /\
  (forall days h m s tail,
     duration_fields days h m s = true ->
     value = duration_text days h m s +:+ tail ->
     uptime_seconds value =
     if within_int_limit days h
     then Ok (days_value days * 86400 + int_of_digits h * 3600
              + int_of_digits m * 60 + int_of_digits s)
     else Raise ValueError) /\
  (forall e, uptime_seconds value = Raise e ->
     e = AttributeError \/ e = ValueError) /\
  (forall resp pre row post t v self self' got turns e,
     ok resp = true ->
     xpath_all "tr" (html resp) = pre ++ row :: post ->
     for_each status_row pre self = (self', Done) ->
     map text (getchildren row) = [Some t; Some v] ->
     strip t = UPTIME -> v <> EmptyString -> strip v = value ->
     uptime_seconds value = Raise e ->
     status_fetch got = Response resp ->
     update_status (Response resp) self = (self', Raised e) /\
     main_loop (got :: turns) self = (self', Raised e)).
Proof.
  assert (Hprefix : forall days h m s tail,
     duration_fields days h m s = true ->
     value = duration_text days h m s +:+ tail ->
     uptime_seconds value =
     if within_int_limit days h
     then Ok (days_value days * 86400 + int_of_digits h * 3600
              + int_of_digits m * 60 + int_of_digits s)
     else Raise ValueError).
  { intros days h m s tail Hf ->. now apply uptime_seconds_duration. }
  assert (Hnone : ~ duration_prefix value ->
                  uptime_seconds value = Raise AttributeError).
  { intros Hn. unfold uptime_seconds.
    destruct (rmatch DURATION_RE value) as [mo|] eqn:E; [| reflexivity].
    exfalso. apply Hn. now apply (duration_match_inv value mo). }
  split; [| split; [exact Hprefix | split]].
  - split; [| exact Hnone].
    intros Hr (days & h & m & s & tail & Hf & Hval).
    rewrite (Hprefix days h m s tail Hf Hval) in Hr.
    now destruct (within_int_limit days h).
  - intros e He. unfold uptime_seconds in He.
    destruct (rmatch DURATION_RE value) as [mo|] eqn:E;
      [| left; congruence].
    destruct (duration_match_inv value mo E)
      as (days & h & m & s & tail & Hf & Hval).
    fold (uptime_seconds value) in He.
    pose proof (Hprefix days h m s tail Hf Hval) as Hp.
    unfold uptime_seconds in Hp. rewrite E in Hp. rewrite Hp in He.
    destruct (within_int_limit days h); [discriminate | right; congruence].
  - intros resp pre row post t v self self' got turns e
      Hresp Hrows Hpre Hv Ht Hne Hval Hfail Hgot.
    assert (Hu : update_status (Response resp) self = (self', Raised e)).
    { rewrite (update_status_at_row resp pre row post self self' Hresp Hrows Hpre).
      rewrite (status_row_uptime row t v self' Hv Ht Hne).
      now rewrite Hval, Hfail. }
    split; [exact Hu |].
    apply main_loop_status_raises. now rewrite Hgot.
Qed.

Lemma duration_failure_iff_no_prefix_witness :
  update_status
    (Response {| ok := true; html := tr [td "System Up Time"; td "3 days"] |})
    (init 30) = (init 30, Raised AttributeError) /\
  main_loop
    [status_turn {| ok := true; html := tr [td "System Up Time"; td "3 days"] |}]
    (init 30) = (init 30, Raised AttributeError).
Proof.
  exact (proj2 (proj2 (proj2 (duration_failure_iff_no_prefix "3 days")))
    {| ok := true; html := tr [td "System Up Time"; td "3 days"] |}
    [] (tr [td "System Up Time"; td "3 days"]) []
    "System Up Time" "3 days" (init 30) (init 30)
    (status_turn {| ok := true; html := tr [td "System Up Time"; td "3 days"] |})
    [] AttributeError
    eq_refl eq_refl eq_refl eq_refl eq_refl ltac:(discriminate) eq_refl eq_refl
    eq_refl).
Defined.

(** C7 as the spec words it does not hold: hours of three digits are no
    match of the spec's pattern, and the parser takes them. *)
Lemma three_digit_hours_accepted :
  rmatch spec_duration_pattern "100h:00m:00s" = None /\
  uptime_seconds "100h:00m:00s" = Ok 360000.
Proof. split; reflexivity. Qed.

(** C5. A status row of two cells with text whose label is a task of the
    schedule sets that task's state: to the value when it is one of
    [TASK_STATES], else to ["Other"] with a warning; nothing else changes,
    the loop goes on with the next row, and so [update_status] does on a
    page that has the row. *)
Theorem task_row_sets_state row t v self rest :
  registered self ->
  map text (getchildren row) = [Some t; Some v] ->
  t <> EmptyString -> v <> EmptyString ->
  in_list (strip t) TASKS = true ->
  let task := strip t in
  let value := strip v in
  let known := in_list value TASK_STATES in
  exists self',
    status_row row self = (self', Done) /\
    task_state self' task = Some (if known then value else "Other") /\
    warnings self' =
      warnings self ++ (if known then [] else [UnknownState value task]) /\
    (forall other, other <> task -> tasks self' !! other = tasks self !! other) /\
    signals self' = signals self /\ uptime self' = uptime self /\
    for_each status_row (row :: rest) self = for_each status_row rest self' /\
    (forall resp pre self0,
       ok resp = true ->
       xpath_all "tr" (html resp) = pre ++ row :: rest ->
       for_each status_row pre self0 = (self, Done) ->
       update_status (Response resp) self0 = for_each status_row rest self').
Proof.
  intros [Hreg _] Hv Ht Hv' Hin task value known.
  destruct (Hreg _ Hin) as (e & He & Hst).
  assert (Hother : in_list "Other" TASK_STATES = true) by reflexivity.
  assert (Hrow : exists self',
    status_row row self = (self', Done) /\
    task_state self' task = Some (if known then value else "Other") /\
    warnings self' =
      warnings self ++ (if known then [] else [UnknownState value task]) /\
    (forall other, other <> task -> tasks self' !! other = tasks self !! other) /\
    signals self' = signals self /\ uptime self' = uptime self).
  { rewrite (status_row_pair row t v self Hv Ht Hv').
    subst task value known. cbv zeta. rewrite Hin.
    unfold set_task_state. rewrite He, Hst.
    destruct (in_list (strip v) TASK_STATES) eqn:Hk.
    - eexists; split; [reflexivity |].
      unfold task_state. cbn [tasks with_tasks warnings signals uptime].
      rewrite lookup_insert_eq. repeat split.
      + now rewrite app_nil_r.
      + intros other Hne. now rewrite lookup_insert_ne.
    - rewrite Hother.
      eexists; split; [reflexivity |].
      unfold task_state.
      cbn [tasks with_tasks log_warning warnings signals uptime].
      rewrite lookup_insert_eq. repeat split.
      intros other Hne. now rewrite lookup_insert_ne. }
  destruct Hrow as (self' & Hrun & Hstate & Hwarn & Hothers & Hsig & Hup).
  exists self'. split; [exact Hrun |]. split; [exact Hstate |].
  split; [exact Hwarn |]. split; [exact Hothers |]. split; [exact Hsig |].
  split; [exact Hup |]. split.
  - cbn [for_each]. now rewrite Hrun.
  - intros resp pre self0 Hok Hrows Hpre.
    rewrite (update_status_at_row resp pre row rest self0 self Hok Hrows Hpre).
    now rewrite Hrun.
Qed.

Lemma task_row_sets_state_examples :
  (exists self',
     update_status
       (Response {| ok := true;
                    html := tr [td "Cable Modem Status"; td "Operational"] |})
       (init 30) = (self', Done) /\
     task_state self' "Cable Modem Status" = Some "Operational" /\
     warnings self' = []) /\
  (exists self',
     update_status
       (Response {| ok := true;
                    html := tr [td "Cable Modem Status"; td "Booting"] |})
       (init 30) = (self', Done) /\
     task_state self' "Cable Modem Status" = Some "Other" /\
     warnings self' = [UnknownState "Booting" "Cable Modem Status"]).
Proof.
  split.
  - destruct (task_row_sets_state
                (tr [td "Cable Modem Status"; td "Operational"])
                "Cable Modem Status" "Operational" (init 30) []
                (init_registered 30) eq_refl
                ltac:(discriminate) ltac:(discriminate) eq_refl)
      as (self' & _ & H2 & H3 & _ & _ & _ & _ & Hpage).
    exists self'. split; [| split; [exact H2 | exact H3]].
    exact (Hpage {| ok := true;
                    html := tr [td "Cable Modem Status"; td "Operational"] |}
                 [] (init 30) eq_refl eq_refl eq_refl).
  - destruct (task_row_sets_state
                (tr [td "Cable Modem Status"; td "Booting"])
                "Cable Modem Status" "Booting" (init 30) []
                (init_registered 30) eq_refl
                ltac:(discriminate) ltac:(discriminate) eq_refl)
      as (self' & _ & H2 & H3 & _ & _ & _ & _ & Hpage).
    exists self'. split; [| split; [exact H2 | exact H3]].
    exact (Hpage {| ok := true;
                    html := tr [td "Cable Modem Status"; td "Booting"] |}
                 [] (init 30) eq_refl eq_refl eq_refl).
Defined.

(** C4, as the program has it. A fetch that failed leaves every metric as
    it was, in both parsers. A response that is not [ok] ends the parser
    quietly; an exception of the fetch itself is not handled and leaves
    the parser. *)
Theorem failed_fetch_keeps_metrics got self :
  fetch_failed got = true ->
  fst (update_status got self) = self /\
  fst (update_signal got self) = self /\
  match got with
  | Response _ =>
      snd (update_status got self) = Done /\ snd (update_signal got self) = Done
  | Failed e =>
      snd (update_status got self) = Raised e /\
      snd (update_signal got self) = Raised e
  end.
Proof.
  destruct got as [resp|e]; simpl.
  - intros ->. now repeat split.
  - intros _. now repeat split.
Qed.

Lemma failed_fetch_keeps_metrics_witness :
  update_status (Response {| ok := false; html := Element "html" None [] |})
    (init 30) = (init 30, Done) /\
  update_signal (Failed RequestException) (init 30)
    = (init 30, Raised RequestException).
Proof.
  split.
  - pose proof (failed_fetch_keeps_metrics
                  (Response {| ok := false; html := Element "html" None [] |})
                  (init 30) eq_refl) as (H1 & _ & H3 & _).
    apply injective_projections; assumption.
  - pose proof (failed_fetch_keeps_metrics (Failed RequestException) (init 30)
                  eq_refl) as (_ & H2 & _ & H4).
    apply injective_projections; assumption.
Defined.

(** C4 as the spec words it does not hold: when the fetch itself fails, the
    exception leaves the parser. *)
Lemma failed_fetch_raises :
  fetch_failed (Failed RequestException) = true /\
  snd (update_status (Failed RequestException) (init 30)) <> Done /\
  snd (update_signal (Failed RequestException) (init 30)) <> Done.
Proof. repeat split; discriminate. Qed.

(** C8. The metric names are those computed from the schedules when the
    exporter is built, and neither parser nor any number of turns of the
    loop adds or removes one. *)
Theorem metric_names_invariant :
  (forall r, metric_names (init r) = list_to_set schedule_names) /\
  (forall got self, metric_names (fst (update_status got self)) = metric_names self) /\
  (forall got self, metric_names (fst (update_signal got self)) = metric_names self) /\
  (forall fetches self,
     metric_names (fst (main_loop fetches self)) = metric_names self).
Proof.
  split; [| split; [| split]].
  - intros r. apply (bool_decide_unpack _). vm_compute. exact I.
  - intros. apply same_names_metric_names, update_status_names.
  - intros. apply same_names_metric_names, update_signal_names.
  - intros. apply same_names_metric_names, main_loop_names.
Qed.

(** ** The numeric token *)

Section NumericToken.

Lemma drop_digit_run (s : string) : starts_with_digit (drop (digit_run s) s) = false.
Proof.
  induction s as [|c s IH]; simpl; [reflexivity |].
  destruct (is_digit c) eqn:E; simpl; [exact IH | exact E].
Qed.

Lemma digit_run_split (s : string) :
  let ds := take (digit_run s) s in
  s = ds +:+ drop (digit_run s) s /\ all_digits ds = true /\
  String.length ds = digit_run s.
Proof.
  cbv zeta. split; [now rewrite take_drop |].
  now apply take_digit_run.
Qed.

Lemma run_digits_zero {A} lo hi (s : string) gs
    (k : string -> string -> groups -> option A) :
  (0 < lo)%nat -> digit_run s = 0%nat -> run (Digits lo hi) s gs k = None.
Proof.
  intros Hlo Hz. cbn [run].
  assert (digits_max hi s = 0%nat) as ->.
  { unfold digits_max. rewrite Hz. destruct hi; lia. }
  cbn [backoff]. apply Nat.ltb_lt in Hlo. now rewrite Hlo.
Qed.

(** What follows the leading digits: the fraction, when there is one. *)
Lemma run_fraction (ds rest : string) :
  run (Opt (Seq (Lit ".") (Digits 1 None))) rest []
      (fun c2 _ g2 => Some {| group0 := ds +:+ c2; captured := g2 |})
  = Some {| group0 := ds +:+ fraction rest; captured := [] |}.
Proof.
  rewrite run_opt, run_seq.
  destruct rest as [|c after]; [reflexivity |].
  unfold fraction. destruct (Ascii.eqb_spec c ".") as [-> | Hc].
  - change (String "." after) with ("." +:+ after). rewrite run_lit_app.
    destruct (digit_run after) as [|n] eqn:Hn.
    + now rewrite run_digits_zero by (lia || exact Hn).
    + destruct (digit_run_split after) as (Hs & Hd & Hl).
      rewrite Hn in Hs, Hd, Hl. cbn [andb negb Nat.eqb].
      rewrite Hs at 1.
      erewrite run_digits_greedy; [reflexivity | exact Hd | | lia | exact I | reflexivity].
      rewrite <- Hn. apply drop_digit_run.
  - assert (E : Ascii.eqb "." c = false) by (apply Ascii.eqb_neq; congruence).
    cbn [run strip_prefix]. now rewrite E.
Qed.

(** [FLOAT_RE.match] on a cell that begins with digits. *)
Lemma float_match (ds rest : string) :
  all_digits ds = true -> (1 <= String.length ds)%nat ->
  starts_with_digit rest = false ->
  rmatch FLOAT_RE (ds +:+ rest) =
  Some {| group0 := ds +:+ fraction rest; captured := [] |}.
Proof.
  intros Hd Hl Hr. unfold rmatch, FLOAT_RE. rewrite run_seq.
  apply (run_digits_greedy 1 None ds);
    [exact Hd | exact Hr | exact Hl | exact I |].
  apply run_fraction.
Qed.

Lemma numeric_token_leading (cell : string) :
  numeric_token cell = leading_number cell.
Proof.
  unfold numeric_token, leading_number. cbv zeta.
  destruct (digit_run cell) as [|n] eqn:Hn.
  - unfold rmatch, FLOAT_RE. rewrite run_seq.
    now rewrite run_digits_zero by (lia || exact Hn).
  - destruct (digit_run_split cell) as (Hs & Hd & Hl).
    rewrite Hn in Hs, Hd, Hl. cbn [Nat.eqb].
    rewrite Hs at 1. rewrite float_match; [reflexivity | exact Hd | lia |].
    rewrite <- Hn. apply drop_digit_run.
Qed.

Lemma digit_run_zero (cell : string) :
  digit_run cell = 0%nat <-> starts_with_digit cell = false.
Proof.
  destruct cell as [|c s]; simpl; [tauto |].
  destruct (is_digit c); split; intros; congruence || lia.
Qed.

End NumericToken.

(** C3, as the program has it. [FLOAT_RE.match] is anchored at the start of
    the cell: the extractor gives the number the cell begins with (its
    leading digits and the fraction that follows them) and no match, which
    is no error, exactly when the cell does not begin with a digit. A cell
    without a match leaves its reading alone and the loop goes on; a cell
    with one sets the reading of its channel to the value of the token. *)
Theorem numeric_token_is_leading_number (cell : string) :
  numeric_token cell = leading_number cell /\
  (numeric_token cell = None <-> starts_with_digit cell = false) /\
  (forall table key channel ids values self,
     numeric_token cell = None ->
     signal_cells table key (channel :: ids) (Some cell :: values) self =
     signal_cells table key ids values self) /\
  (forall tok table key channel ids values self g,
     numeric_token cell = Some tok ->
     signals self !! (table, key) = Some g ->
     exists self',
       reading self' table key channel = Some (py_float tok) /\
       signal_cells table key (channel :: ids) (Some cell :: values) self =
       signal_cells table key ids values self').
Proof.
  pose proof (numeric_token_leading cell) as Hlead.
  split; [exact Hlead |]. split; [| split].
  - rewrite Hlead. unfold leading_number. cbv zeta.
    rewrite <- digit_run_zero.
    destruct (digit_run cell); cbn [Nat.eqb]; split; congruence.
  - intros table key channel ids values self Hn.
    unfold numeric_token in Hn. cbn [signal_cells].
    destruct (rmatch FLOAT_RE cell); [discriminate | reflexivity].
  - intros tok table key channel ids values self g Hn Hg.
    unfold numeric_token in Hn. cbn [signal_cells].
    destruct (rmatch FLOAT_RE cell) as [mo|]; [| discriminate].
    injection Hn as <-. unfold set_signal. rewrite Hg.
    eexists; split; [| reflexivity].
    unfold reading. cbn [signals with_signals].
    rewrite lookup_insert_eq. cbn [cg_children]. apply lookup_insert_eq.
Qed.

Lemma numeric_token_examples :
  (numeric_token "35.2 dBmV" = Some "35.2" /\ py_float "35.2" = Qred 35.2) /\
  (numeric_token "256 QAM" = Some "256" /\ py_float "256" = Qred 256) /\
  numeric_token "N/A" = None /\
  signal_cells "Downstream" "Power Level" [1; 2] [Some "N/A"; Some "35.2 dBmV"] (init 30)
  = signal_cells "Downstream" "Power Level" [2] [Some "35.2 dBmV"] (init 30).
Proof.
  split; [| split; [| split]].
  - split; [| reflexivity].
    exact (proj1 (numeric_token_is_leading_number "35.2 dBmV")).
  - split; [| reflexivity].
    exact (proj1 (numeric_token_is_leading_number "256 QAM")).
  - exact (proj2 (proj1 (proj2 (numeric_token_is_leading_number "N/A"))) eq_refl).
  - exact (proj1 (proj2 (proj2 (numeric_token_is_leading_number "N/A")))
             "Downstream" "Power Level" 1 [2] [Some "35.2 dBmV"] (init 30)
             (proj2 (proj1 (proj2 (numeric_token_is_leading_number "N/A"))) eq_refl)).
Defined.

(** C3 as the spec words it does not hold: the cell has a numeric
    substring, but not at its start, and the extractor finds no match. *)
Lemma numeric_token_not_first_substring :
  spec_numeric_token "QAM 256" = Some "256" /\ numeric_token "QAM 256" = None.
Proof. split; reflexivity. Qed.

(** ** The signal page *)

Section SignalTables.

Lemma map_res_length {A B} (f : A -> res B) (l : list A) (ys : list B) :
  map_res f l = Ok ys -> length ys = length l.
Proof.
  revert ys; induction l as [|x l IH]; intros ys; simpl.
  - now intros [= <-].
  - destruct (f x) as [y|e]; simpl; [| discriminate].
    destruct (map_res f l) as [zs|e]; simpl; [| discriminate].
    intros [= <-]. simpl. now rewrite (IH zs).
Qed.

(** The keys of the schedule are not empty, and no table has none. *)
Lemma schedule_keys name keys :
  dict_get SIGNAL_DATA name = Some keys ->
  keys <> [] /\ forall key, In key keys -> key <> EmptyString.
Proof.
  intros H. apply dict_get_In in H. simpl in H.
  repeat (destruct H as [[= <- <-] | H];
          [split; [discriminate |];
           intros key Hin; simpl in Hin;
           repeat (destruct Hin as [<- | Hin]; [discriminate |]);
           contradiction |]).
  contradiction.
Qed.

Lemma first_prefix_In label keys key :
  first_prefix (Some label) keys = Ok (Some key) ->
  In key keys /\ startswith label key = true.
Proof.
  induction keys as [|k keys IH]; simpl; [discriminate |].
  destruct (startswith label k) eqn:E.
  - intros [= <-]. split; [now left | exact E].
  - intros H. destruct (IH H) as [Hin Hs]. split; [now right | exact Hs].
Qed.

(** [zip(..., strict=True)] on sides of different lengths: the loop ends
    with an exception. *)
Lemma signal_cells_mismatch table key ids values :
  length ids <> length values ->
  forall self, exists e, snd (signal_cells table key ids values self) = Raised e.
Proof.
  revert values; induction ids as [|c ids IH]; intros [|[cell|] values] Hlen self;
    simpl in *; try congruence; eauto.
  assert (Hlen' : length ids <> length values) by congruence.
  destruct (rmatch FLOAT_RE cell) as [mo|]; [| now apply IH].
  destruct (set_signal table key c (py_float (group0 mo)) self) as [self' [|e]];
    [now apply IH | simpl; eauto].
Qed.

(** With every cell holding text and the gauge in place, that exception
    is the [ValueError] of [zip]. *)
Lemma signal_cells_mismatch_zip table key ids values :
  length ids <> length values ->
  Forall (fun v => v <> None) values ->
  forall self, is_Some (signals self !! (table, key)) ->
    snd (signal_cells table key ids values self) = Raised ValueError.
Proof.
  revert values; induction ids as [|c ids IH]; intros [|[cell|] values] Hlen Hall self Hg;
    simpl in *; try congruence; try reflexivity.
  - assert (Hlen' : length ids <> length values) by congruence.
    inversion Hall as [|? ? _ Hall']; subst.
    destruct (rmatch FLOAT_RE cell) as [mo|]; [| now apply IH].
    unfold set_signal. destruct Hg as [g Hg]. rewrite Hg.
    apply IH; [exact Hlen' | exact Hall' |].
    cbn [signals with_signals]. rewrite lookup_insert_eq. eauto.
  - inversion Hall as [|? ? Hnone _]; subst. congruence.
Qed.

(** A labelled row goes to the cells of its key. *)
Lemma signal_row_labelled name ids row self keys label values key :
  map text (findall "td" row) = Some label :: values ->
  dict_get SIGNAL_DATA name = Some keys ->
  first_prefix (Some label) keys = Ok (Some key) ->
  signal_row name ids row self = signal_cells name key ids values self.
Proof.
  intros Hrow Hkeys Hkey. unfold signal_row. rewrite Hrow, Hkeys, Hkey.
  destruct (first_prefix_In _ _ _ Hkey) as [Hin _].
  destruct (schedule_keys _ _ Hkeys) as [_ Hne].
  specialize (Hne key Hin). destruct key; [contradiction | reflexivity].
Qed.

(** A row without a label raises: [ValueError] from the unpacking of no
    cells, [AttributeError] from [None.startswith]. *)
Lemma signal_row_no_label name ids row self keys :
  dict_get SIGNAL_DATA name = Some keys ->
  no_label row = true ->
  signal_row name ids row self =
  (self, Raised match findall "td" row with
                | [] => ValueError
                | _ => AttributeError
                end).
Proof.
  intros Hkeys Hrow. unfold signal_row, no_label in *.
  destruct (schedule_keys _ _ Hkeys) as [Hne _].
  destruct (findall "td" row) as [|c cells]; [reflexivity |].
  simpl in *. destruct (text c); [discriminate |].
  rewrite Hkeys. destruct keys; [contradiction | reflexivity].
Qed.

(** A table with a data row on which the body always raises ends with an
    exception, whatever the rows before it do. *)
Lemma signal_table_raises table header channels before row after name :
  findall2 "tbody" "tr" table = header :: channels :: before ++ row :: after ->
  table_name_of header = Ok name ->
  (forall ids self, channel_ids_of channels = Ok ids ->
     exists e, snd (signal_row name ids row self) = Raised e) ->
  forall self, exists e, snd (signal_table table self) = Raised e.
Proof.
  intros Hrows Hname Hrow self. unfold signal_table. rewrite Hrows, Hname.
  assert ((length (header :: channels :: before ++ row :: after) <? 3)%nat = false)
    as ->.
  { apply Nat.ltb_ge. simpl. rewrite length_app. simpl. lia. }
  destruct (channel_ids_of channels) as [ids|e] eqn:Hids; [| simpl; eauto].
  apply for_each_raises. intros st. now apply Hrow.
Qed.

(** ... and so does [update_signal], whatever the tables before it do. *)
Lemma update_signal_raises resp pre table post :
  ok resp = true ->
  xpath_all "table" (html resp) = pre ++ table :: post ->
  (forall self, exists e, snd (signal_table table self) = Raised e) ->
  forall self, exists e, snd (update_signal (Response resp) self) = Raised e.
Proof.
  intros Hok Htables Htable self. unfold update_signal.
  rewrite Hok, Htables. cbn [negb]. now apply for_each_raises.
Qed.

End SignalTables.

(** C9. A table of the signal page with fewer than three rows is skipped:
    nothing of it is read, nothing is set, nothing is raised, and the loop
    goes on with the next table. *)
Theorem short_table_skipped table :
  (length (findall2 "tbody" "tr" table) < 3)%nat ->
  (forall self, signal_table table self = (self, Done)) /\
  (forall rest self,
     for_each signal_table (table :: rest) self = for_each signal_table rest self) /\
  (forall resp pre post self,
     ok resp = true ->
     xpath_all "table" (html resp) = pre ++ table :: post ->
     update_signal (Response resp) self = for_each signal_table (pre ++ post) self).
Proof.
  intros Hlen.
  assert (Hskip : forall self, signal_table table self = (self, Done)).
  { intros self. unfold signal_table.
    apply Nat.ltb_lt in Hlen. now rewrite Hlen. }
  split; [exact Hskip |]. split.
  - intros rest self. cbn [for_each]. now rewrite Hskip.
  - intros resp pre post self Hok Htables. unfold update_signal.
    rewrite Hok, Htables. cbn [negb]. now apply for_each_skip.
Qed.

Lemma short_table_skipped_witness :
  signal_table short_table (init 30) = (init 30, Done) /\
  update_signal (Response (page_of [short_table; downstream_table])) (init 30)
  = for_each signal_table [downstream_table] (init 30).
Proof.
  split.
  - exact (proj1 (short_table_skipped short_table ltac:(vm_compute; lia)) (init 30)).
  - exact (proj2 (proj2 (short_table_skipped short_table ltac:(vm_compute; lia)))
             (page_of [short_table; downstream_table]) [] [downstream_table]
             (init 30) eq_refl eq_refl).
Defined.

(** C6. A data row whose label begins with a key of its table's schedule
    and whose cells after the label are not as many as the channel ids
    makes the row, the table and [update_signal] end with an exception;
    with text in every cell it is the [ValueError] of
    [zip(..., strict=True)]. *)
Theorem row_length_mismatch_raises
    table header channels before row after name keys label values key :
  findall2 "tbody" "tr" table = header :: channels :: before ++ row :: after ->
  table_name_of header = Ok name ->
  dict_get SIGNAL_DATA name = Some keys ->
  map text (findall "td" row) = Some label :: values ->
  first_prefix (Some label) keys = Ok (Some key) ->
  length values <> length (tl (findall "td" channels)) ->
  (forall ids self, channel_ids_of channels = Ok ids ->
     (exists e, snd (signal_row name ids row self) = Raised e) /\
     (registered self -> Forall (fun v => v <> None) values ->
      snd (signal_row name ids row self) = Raised ValueError)) /\
  (forall self, exists e, snd (signal_table table self) = Raised e) /\
  (forall resp pre post self,
     ok resp = true ->
     xpath_all "table" (html resp) = pre ++ table :: post ->
     exists e, snd (update_signal (Response resp) self) = Raised e).
Proof.
  intros Hrows Hname Hkeys Hrow Hkey Hlen.
  assert (Hr : forall ids self, channel_ids_of channels = Ok ids ->
     (exists e, snd (signal_row name ids row self) = Raised e) /\
     (registered self -> Forall (fun v => v <> None) values ->
      snd (signal_row name ids row self) = Raised ValueError)).
  { intros ids self Hids.
    apply map_res_length in Hids.
    rewrite (signal_row_labelled name ids row self keys label values key
               Hrow Hkeys Hkey).
    assert (Hne : length ids <> length values) by congruence.
    split; [now apply signal_cells_mismatch |].
    intros [_ Hreg] Hall.
    apply signal_cells_mismatch_zip; [exact Hne | exact Hall |].
    apply (Hreg name keys key Hkeys).
    now destruct (first_prefix_In _ _ _ Hkey). }
  assert (Ht : forall self, exists e, snd (signal_table table self) = Raised e).
  { apply (signal_table_raises table header channels before row after name
             Hrows Hname).
    intros ids self Hids. now destruct (Hr ids self Hids). }
  split; [exact Hr |]. split; [exact Ht |].
  intros resp pre post self Hok Htables.
  now apply (update_signal_raises resp pre table post).
Qed.

Lemma row_length_mismatch_raises_witness :
  snd (signal_row "Downstream" [1; 2; 3] power_row (init 30)) = Raised ValueError /\
  exists e,
    snd (update_signal (Response (page_of [mismatch_table])) (init 30)) = Raised e.
Proof.
  pose proof (row_length_mismatch_raises mismatch_table
    (tr [Element "th" None [Element "font" (Some "Downstream") []]])
    (tr [td "Channel ID"; td "1"; td "2"; td "3"]) [] power_row []
    "Downstream"
    ["Frequency"; "Signal to Noise Ratio"; "Downstream Modulation"; "Power Level"]
    "Power Level" [Some "5.1 dBmV"; Some "4.9 dBmV"] "Power Level"
    eq_refl eq_refl eq_refl eq_refl eq_refl ltac:(vm_compute; lia))
    as (Hrow & _ & Hupdate).
  split.
  - apply (Hrow [1; 2; 3] (init 30) eq_refl); [apply init_registered |].
    repeat constructor; discriminate.
  - exact (Hupdate (page_of [mismatch_table]) [] [] (init 30) eq_refl eq_refl).
Defined.

(** The cells that [zip] pairs before it raises have set their readings. *)
Example mismatch_sets_paired_cells :
  reading (fst (signal_row "Downstream" [1; 2; 3] power_row (init 30)))
          "Downstream" "Power Level" 2 = Some (Qred 4.9).
Proof. vm_compute. reflexivity. Qed.

(** C10. In a table that is read (three rows or more, a name of the
    schedule), a data row with no cells, or whose first cell has no text,
    makes the row raise ([ValueError] from the unpacking, [AttributeError]
    from [None.startswith]); the row is not skipped: the table and
    [update_signal] end with an exception. *)
Theorem row_without_label_raises
    table header channels before row after name keys :
  findall2 "tbody" "tr" table = header :: channels :: before ++ row :: after ->
  table_name_of header = Ok name ->
  dict_get SIGNAL_DATA name = Some keys ->
  no_label row = true ->
  (forall ids self,
     signal_row name ids row self =
     (self, Raised match findall "td" row with
                   | [] => ValueError
                   | _ => AttributeError
                   end)) /\
  (forall self, exists e, snd (signal_table table self) = Raised e) /\
  (forall resp pre post self,
     ok resp = true ->
     xpath_all "table" (html resp) = pre ++ table :: post ->
     exists e, snd (update_signal (Response resp) self) = Raised e).
Proof.
  intros Hrows Hname Hkeys Hrow.
  assert (Hr : forall ids self,
     signal_row name ids row self =
     (self, Raised match findall "td" row with
                   | [] => ValueError
                   | _ => AttributeError
                   end)).
  { intros ids self. now apply (signal_row_no_label name ids row self keys). }
  assert (Ht : forall self, exists e, snd (signal_table table self) = Raised e).
  { apply (signal_table_raises table header channels before row after name
             Hrows Hname).
    intros ids self _. rewrite Hr. simpl. eauto. }
  split; [exact Hr |]. split; [exact Ht |].
  intros resp pre post self Hok Htables.
  now apply (update_signal_raises resp pre table post).
Qed.

Lemma row_without_label_raises_witness :
  signal_row "Downstream" [1; 2]
    (tr [Element "td" None [Element "b" (Some "Power Level") []];
         td "5.1 dBmV"; td "4.9 dBmV"]) (init 30)
  = (init 30, Raised AttributeError) /\
  exists e,
    snd (update_signal (Response (page_of [unlabelled_table])) (init 30)) = Raised e.
Proof.
  pose proof (row_without_label_raises unlabelled_table
    (tr [Element "th" None [Element "font" (Some "Downstream") []]])
    channels_1_2 []
    (tr [Element "td" None [Element "b" (Some "Power Level") []];
         td "5.1 dBmV"; td "4.9 dBmV"]) []
    "Downstream"
    ["Frequency"; "Signal to Noise Ratio"; "Downstream Modulation"; "Power Level"]
    eq_refl eq_refl eq_refl eq_refl)
    as (Hrow & _ & Hupdate).
  split.
  - exact (Hrow [1; 2] (init 30)).
  - exact (Hupdate (page_of [unlabelled_table]) [] [] (init 30) eq_refl eq_refl).
Defined.

(** C2, as the program has it. A table of three rows or more whose name
    is not a key of [SIGNAL_DATA] sets no reading, and it is not skipped:
    [SIGNAL_DATA[table_name]] raises [KeyError] at its first data row (an
    exception of the channel row or of the unpacking comes first when
    there is one), [update_signal] ends there and the tables after it are
    not read. *)
Theorem unknown_table_stops_update table header channels row rows name self :
  findall2 "tbody" "tr" table = header :: channels :: row :: rows ->
  table_name_of header = Ok name ->
  dict_get SIGNAL_DATA name = None ->
  exists e,
    signal_table table self = (self, Raised e) /\
    (forall ids, channel_ids_of channels = Ok ids ->
       findall "td" row <> [] -> e = KeyError) /\
    (forall resp pre post self0,
       ok resp = true ->
       xpath_all "table" (html resp) = pre ++ table :: post ->
       for_each signal_table pre self0 = (self, Done) ->
       update_signal (Response resp) self0 = (self, Raised e)).
Proof.
  intros Hrows Hname Hkeys.
  assert (Hup : forall e, signal_table table self = (self, Raised e) ->
    forall resp pre post self0,
      ok resp = true ->
      xpath_all "table" (html resp) = pre ++ table :: post ->
      for_each signal_table pre self0 = (self, Done) ->
      update_signal (Response resp) self0 = (self, Raised e)).
  { intros e He resp pre post self0 Hok Htables Hpre.
    unfold update_signal. rewrite Hok, Htables. cbn [negb].
    rewrite for_each_app, Hpre. cbn [for_each]. now rewrite He. }
  assert (Hcases : exists e, signal_table table self = (self, Raised e) /\
    (forall ids, channel_ids_of channels = Ok ids ->
       findall "td" row <> [] -> e = KeyError)).
  { unfold signal_table. rewrite Hrows, Hname.
    change (length (header :: channels :: row :: rows) <? 3)%nat with false.
    cbv iota.
    destruct (channel_ids_of channels) as [ids|e].
    - cbn [for_each]. unfold signal_row. rewrite Hkeys.
      destruct (findall "td" row) as [|c cells]; cbn [map].
      + exists ValueError. split; [reflexivity |]. intros _ _ Hne. now elim Hne.
      + exists KeyError. split; [reflexivity | reflexivity].
    - exists e. split; [reflexivity |]. intros ids Hids. discriminate Hids. }
  destruct Hcases as (e & He & Hkind).
  exists e. split; [exact He |]. split; [exact Hkind |]. now apply Hup.
Qed.

Lemma unknown_table_stops_update_witness :
  update_signal (Response (page_of [unknown_table; downstream_table])) (init 30)
  = (init 30, Raised KeyError).
Proof.
  destruct (unknown_table_stops_update unknown_table
    (tr [Element "th" None [Element "font" (Some "Event Log") []]])
    channels_1_2 power_row [] "Event Log" (init 30) eq_refl eq_refl eq_refl)
    as (e & _ & Hkind & Hupdate).
  rewrite (Hupdate (page_of [unknown_table; downstream_table]) []
             [downstream_table] (init 30) eq_refl eq_refl eq_refl).
  now rewrite (Hkind [1; 2] eq_refl ltac:(discriminate)).
Defined.

(** C2 as the spec words it does not hold: the table with a name outside
    the schedule raises, and the table after it sets no reading. *)
Lemma unknown_table_raises :
  table_name_of (tr [Element "th" None [Element "font" (Some "Event Log") []]])
    = Ok "Event Log" /\
  dict_get SIGNAL_DATA "Event Log" = None /\
  snd (update_signal (Response (page_of [unknown_table; downstream_table]))
         (init 30)) = Raised KeyError /\
  reading (fst (update_signal
                  (Response (page_of [unknown_table; downstream_table]))
                  (init 30)))
          "Downstream" "Power Level" 1 = None /\
  reading (fst (update_signal (Response (page_of [downstream_table])) (init 30)))
          "Downstream" "Power Level" 1 = Some (Qred 5.1).
Proof. vm_compute. repeat split; reflexivity. Qed.

(** * More of the program *)

(** ** The status page as a whole *)

Section StatusPage.

(** [status_row] by the label and value of the row. *)
Lemma status_row_cases row self :
  status_row row self =
  match row_texts row with
  | None => (self, Done)
  | Some (task, value) =>
      if in_list task TASKS then
        if in_list value TASK_STATES then set_task_state task value self
        else
          match set_task_state task "Other" self with
          | (self', Done) => (log_warning (UnknownState value task) self', Done)
          | stopped => stopped
          end
      else if String.eqb task TIME then (self, Done)
      else if String.eqb task UPTIME then
        match uptime_seconds value with
        | Ok seconds => set_uptime seconds self
        | Raise e => (self, Raised e)
        end
      else (log_warning (UnknownRow task) self, Done)
  end.
Proof.
  unfold status_row, row_texts.
  destruct (map text (getchildren row)) as [|[[|a t]|] [|[[|b v]|] [|? ?]]];
    reflexivity.
Qed.

(** The seconds of a duration are not negative. *)
Lemma uptime_seconds_nonneg value z : uptime_seconds value = Ok z -> 0 <= z.
Proof.
  intros H. pose proof H as H'. unfold uptime_seconds in H'.
  destruct (rmatch DURATION_RE value) as [mo|] eqn:E; [| discriminate].
  clear H'.
  destruct (duration_match_inv value mo E)
    as (days & h & m & s & tail & Hf & ->).
  rewrite (uptime_seconds_duration days h m s tail Hf) in H.
  destruct (within_int_limit days h); [| discriminate].
  injection H as <-.
  pose proof (duration_fields_nonneg days h m s Hf). lia.
Qed.

(** The duration parser has two ways to fail. *)
Lemma uptime_seconds_raise value e :
  uptime_seconds value = Raise e -> e = AttributeError \/ e = ValueError.
Proof.
  intros H. pose proof H as H'. unfold uptime_seconds in H'.
  destruct (rmatch DURATION_RE value) as [mo|] eqn:E; [| left; congruence].
  clear H'.
  destruct (duration_match_inv value mo E)
    as (days & h & m & s & tail & Hf & ->).
  rewrite (uptime_seconds_duration days h m s tail Hf) in H.
  destruct (within_int_limit days h); [discriminate | right; congruence].
Qed.

Lemma uptime_float_nonneg value z : uptime_float value = Ok z -> 0 <= z.
Proof.
  unfold uptime_float, bind.
  destruct (uptime_seconds value) as [n|] eqn:E; [| discriminate].
  apply float_of_int_nonneg. now apply (uptime_seconds_nonneg value).
Qed.

Lemma uptime_float_raise value e :
  uptime_float value = Raise e ->
  e = AttributeError \/ e = ValueError \/ e = OverflowError.
Proof.
  unfold uptime_float, bind.
  destruct (uptime_seconds value) as [n|] eqn:E.
  - intros H. right. right. now apply (float_of_int_raise n).
  - intros [= <-]. destruct (uptime_seconds_raise value e0 E); auto.
Qed.

(** The uptime branch by the float it stores. *)
Lemma uptime_branch value self :
  match uptime_seconds value with
  | Ok seconds => set_uptime seconds self
  | Raise e => (self, Raised e)
  end =
  match uptime_float value with
  | Ok f => (store_uptime f self, Done)
  | Raise e => (self, Raised e)
  end.
Proof.
  unfold uptime_float, bind, set_uptime.
  now destruct (uptime_seconds value).
Qed.

Lemma task_not_uptime task :
  in_list task TASKS = true -> String.eqb task UPTIME = false.
Proof.
  intros H. destruct (String.eqb_spec task UPTIME) as [-> |]; [| reflexivity].
  discriminate H.
Qed.

(** What one row of the status page does to a registered exporter. *)
Lemma status_row_effect row self :
  registered self ->
  match uptime_row_error row with
  | Some e => status_row row self = (self, Raised e)
  | None =>
    exists self1,
      status_row row self = (self1, Done) /\ registered self1 /\
      (forall task,
         task_state self1 task =
         match task_update row with
         | Some (t, v) => if String.eqb t task then Some v else task_state self task
         | None => task_state self task
         end) /\
      gauge_value (uptime self1) =
        match uptime_update row with
        | Some value =>
            match uptime_float value with
            | Ok z => z
            | Raise _ => gauge_value (uptime self)
            end
        | None => gauge_value (uptime self)
        end /\
      warnings self1 = warnings self ++ row_warning row /\
      signals self1 = signals self
  end.
Proof.
  intros Hreg. rewrite status_row_cases.
  unfold uptime_row_error, task_update, uptime_update, row_warning.
  destruct (row_texts row) as [[task value]|].
  2:{ exists self. split; [reflexivity |]. split; [exact Hreg |].
      split; [reflexivity |]. split; [reflexivity |].
      split; [now rewrite app_nil_r | reflexivity]. }
  destruct (in_list task TASKS) eqn:Hin.
  - rewrite (task_not_uptime task Hin).
    pose proof (set_task_state_registered task
                  (if in_list value TASK_STATES then value else "Other")
                  self Hreg) as Hr.
    destruct Hreg as [Ht Hs]. destruct (Ht task Hin) as (e & He & Hst).
    assert (Hother : in_list "Other" TASK_STATES = true) by reflexivity.
    unfold set_task_state in Hr |- *. rewrite He, Hst in Hr |- *.
    destruct (in_list value TASK_STATES) eqn:Hk.
    + rewrite Hk in Hr. eexists. split; [reflexivity |].
      split; [exact Hr |].
      unfold task_state. cbn [tasks with_tasks warnings signals uptime].
      split; [| split; [reflexivity | split; [now rewrite app_nil_r | reflexivity]]].
      intros t'. destruct (String.eqb_spec task t') as [<- | Hne].
      * now rewrite lookup_insert_eq.
      * now rewrite lookup_insert_ne.
    + rewrite Hother in Hr |- *. eexists. split; [reflexivity |].
      split; [exact Hr |].
      unfold task_state.
      cbn [tasks with_tasks log_warning warnings signals uptime].
      split; [| split; [reflexivity | split; [reflexivity | reflexivity]]].
      intros t'. destruct (String.eqb_spec task t') as [<- | Hne].
      * now rewrite lookup_insert_eq.
      * now rewrite lookup_insert_ne.
  - destruct (String.eqb_spec task TIME) as [-> | Htime].
    { exists self. split; [reflexivity |]. split; [exact Hreg |].
      split; [reflexivity |]. split; [reflexivity |].
      split; [now rewrite app_nil_r | reflexivity]. }
    destruct (String.eqb task UPTIME).
    + rewrite uptime_branch. destruct (uptime_float value) as [z|e].
      * exists (store_uptime z self). split; [reflexivity |].
        split; [exact Hreg |]. split; [reflexivity |]. split; [reflexivity |].
        split; [cbn; now rewrite app_nil_r | reflexivity].
      * reflexivity.
    + exists (log_warning (UnknownRow task) self). split; [reflexivity |].
      split; [exact Hreg |]. now repeat split.
Qed.

(** What the rows of a status page do, one after the other. *)
Lemma status_rows_effect rows : forall self,
  registered self ->
  match first_row_error rows with
  | Some e => snd (for_each status_row rows self) = Raised e
  | None =>
    exists self',
      for_each status_row rows self = (self', Done) /\ registered self' /\
      (forall task,
         task_state self' task =
         match last_task_state rows task with
         | Some v => Some v
         | None => task_state self task
         end) /\
      gauge_value (uptime self') =
        match last_uptime rows with
        | Some z => z
        | None => gauge_value (uptime self)
        end /\
      warnings self' = warnings self ++ flat_map row_warning rows /\
      signals self' = signals self
  end.
Proof.
  induction rows as [|row rows IH]; intros self Hreg.
  - exists self. split; [reflexivity |]. split; [exact Hreg |].
    split; [reflexivity |]. split; [reflexivity |].
    split; [cbn; now rewrite app_nil_r | reflexivity].
  - cbn [first_row_error for_each last_task_state last_uptime flat_map].
    pose proof (status_row_effect row self Hreg) as Hrow.
    destruct (uptime_row_error row) as [e|] eqn:Hbad; [now rewrite Hrow |].
    destruct Hrow as (self1 & -> & Hreg1 & Ht1 & Hu1 & Hw1 & Hs1).
    specialize (IH self1 Hreg1).
    destruct (first_row_error rows) as [e|]; [exact IH |].
    destruct IH as (self' & -> & Hreg' & Ht & Hu & Hw & Hs).
    exists self'. split; [reflexivity |]. split; [exact Hreg' |].
    split; [| split; [| split]].
    + intros task. rewrite Ht, Ht1.
      destruct (last_task_state rows task); [reflexivity |].
      destruct (task_update row) as [[t v]|]; [| reflexivity].
      now destruct (String.eqb t task).
    + rewrite Hu, Hu1. destruct (last_uptime rows); [reflexivity |].
      unfold uptime_row_error in Hbad.
      destruct (uptime_update row) as [value|]; [| reflexivity].
      now destruct (uptime_float value).
    + now rewrite Hw, Hw1, <- app_assoc.
    + congruence.
Qed.

Lemma first_row_error_kind rows e :
  first_row_error rows = Some e ->
  e = AttributeError \/ e = ValueError \/ e = OverflowError.
Proof.
  induction rows as [|row rows IH]; cbn [first_row_error]; [discriminate |].
  unfold uptime_row_error.
  destruct (uptime_update row) as [value|]; [| exact IH].
  destruct (uptime_float value) as [z|e'] eqn:E; [exact IH |].
  intros [= <-]. now apply (uptime_float_raise value).
Qed.

(** How [update_status] ends on a registered exporter. *)
Lemma update_status_snd got self :
  registered self -> snd (update_status got self) = status_outcome got.
Proof.
  intros Hreg. unfold update_status, status_outcome.
  destruct got as [resp|e]; [| reflexivity].
  destruct (negb (ok resp)); [reflexivity |].
  pose proof (status_rows_effect (xpath_all "tr" (html resp)) self Hreg) as H.
  destruct (first_row_error _); [exact H |].
  destruct H as (self' & -> & _). reflexivity.
Qed.

End StatusPage.

Lemma pair_of_snd {A B} (p : A * B) (b : B) : snd p = b -> p = (fst p, b).
Proof. destruct p. simpl. now intros ->. Qed.

(** X1. On a registered exporter how [update_status] ends is decided by
    the fetch and the uptime rows alone: it raises the exception of the
    fetch, or, on a page that is [ok], that of the first uptime row whose
    value does not go through, and completes otherwise. Such a row raises
    [AttributeError] (no match of [DURATION_RE]), [ValueError] (a group of
    more digits than [int] takes) or [OverflowError] (a total beyond the
    floats); no other row raises. *)
Theorem update_status_outcome got self :
  registered self ->
  snd (update_status got self) = status_outcome got /\
  (forall resp e,
     got = Response resp -> status_outcome got = Raised e ->
     e = AttributeError \/ e = ValueError \/ e = OverflowError).
Proof.
  intros Hreg. split; [now apply update_status_snd |].
  intros resp e -> H. unfold status_outcome in H.
  destruct (negb (ok resp)); [discriminate |].
  destruct (first_row_error _) as [e'|] eqn:E; [| discriminate].
  injection H as <-. exact (first_row_error_kind _ e' E).
Qed.

Lemma update_status_outcome_witness :
  snd (update_status (Response status_page) (init 30)) = Done /\
  snd (update_status
         (Response {| ok := true;
                      html := tr [td " System Up Time"; td "12 minutes"] |})
         (init 30)) = Raised AttributeError /\
  snd (update_status
         (Response {| ok := true;
                      html := tr [td "System Up Time";
                                  td (long_days +:+ " days 0h:0m:0s")] |})
         (init 30)) = Raised ValueError /\
  snd (update_status (Response huge_uptime_page) (init 30))
  = Raised OverflowError.
Proof.
  split; [| split; [| split]].
  - exact (proj1 (update_status_outcome (Response status_page) (init 30)
                    (init_registered 30))).
  - exact (proj1 (update_status_outcome
             (Response {| ok := true;
                          html := tr [td " System Up Time"; td "12 minutes"] |})
             (init 30) (init_registered 30))).
  - rewrite (proj1 (update_status_outcome
             (Response {| ok := true;
                          html := tr [td "System Up Time";
                                      td (long_days +:+ " days 0h:0m:0s")] |})
             (init 30) (init_registered 30))).
    vm_compute. reflexivity.
  - rewrite (proj1 (update_status_outcome (Response huge_uptime_page)
                      (init 30) (init_registered 30))).
    vm_compute. reflexivity.
Defined.

(** X2. When [update_status] completes on a page, the state of every task
    is the one its last row on the page writes (the value when it is one
    of [TASK_STATES], else ["Other"]) or stays as it was when the page has
    no row for it; the uptime is that of the last uptime row or stays; one
    warning is added per row with an unknown state or an unknown label, in
    the order of the rows; the signals stay. *)
Theorem update_status_effect resp self self' :
  registered self -> ok resp = true ->
  update_status (Response resp) self = (self', Done) ->
  let rows := xpath_all "tr" (html resp) in
  (forall task,
     task_state self' task =
     match last_task_state rows task with
     | Some v => Some v
     | None => task_state self task
     end) /\
  gauge_value (uptime self') =
    match last_uptime rows with
    | Some z => z
    | None => gauge_value (uptime self)
    end /\
  warnings self' = warnings self ++ flat_map row_warning rows /\
  signals self' = signals self.
Proof.
  intros Hreg Hok Hrun rows. unfold update_status in Hrun.
  rewrite Hok in Hrun. cbn [negb] in Hrun. fold rows in Hrun.
  pose proof (status_rows_effect rows self Hreg) as H.
  destruct (first_row_error rows).
  - rewrite Hrun in H. discriminate H.
  - destruct H as (s & Hs & _ & H). rewrite Hrun in Hs.
    injection Hs as <-. exact H.
Qed.

Lemma update_status_effect_witness :
  task_state after_status_page "Cable Modem Status" = Some "Operational" /\
  task_state after_status_page "DOCSIS Ranging" = Some "Done" /\
  task_state after_status_page "Register Connection" = Some "Not started" /\
  gauge_value (uptime after_status_page) = 727 /\
  warnings after_status_page
  = [UnknownState "Booting" "Cable Modem Status"; UnknownRow "Firmware"] /\
  gauge_value (uptime after_odd_uptime_page) = 9007199254740992.
Proof.
  destruct (update_status_effect status_page (init 30) after_status_page
              (init_registered 30) eq_refl
              (pair_of_snd (update_status (Response status_page) (init 30)) Done
                 ltac:(vm_compute; reflexivity)))
    as (Ht & Hu & Hw & _).
  destruct (update_status_effect odd_uptime_page (init 30) after_odd_uptime_page
              (init_registered 30) eq_refl
              (pair_of_snd (update_status (Response odd_uptime_page) (init 30))
                 Done ltac:(vm_compute; reflexivity)))
    as (_ & Hodd & _).
  split; [exact (Ht "Cable Modem Status") |].
  split; [exact (Ht "DOCSIS Ranging") |].
  split; [rewrite (Ht "Register Connection"); vm_compute; reflexivity |].
  split; [exact Hu |]. split; [exact Hw | exact Hodd].
Defined.

(** X3. Reading the same status page again changes no metric: when
    [update_status] completes on a page, it completes on it again from the
    state it left, with the same task states, uptime and signals; only the
    warnings of the page are logged once more. *)
Theorem update_status_twice resp self s1 :
  registered self ->
  update_status (Response resp) self = (s1, Done) ->
  exists s2 logged,
    update_status (Response resp) s1 = (s2, Done) /\
    (forall task, task_state s2 task = task_state s1 task) /\
    gauge_value (uptime s2) = gauge_value (uptime s1) /\
    signals s2 = signals s1 /\
    warnings s1 = warnings self ++ logged /\
    warnings s2 = warnings s1 ++ logged.
Proof.
  intros Hreg Hrun. unfold update_status in *.
  destruct (ok resp); cbn [negb] in *.
  2:{ injection Hrun as <-. exists self, []. rewrite app_nil_r. now repeat split. }
  set (rows := xpath_all "tr" (html resp)) in *.
  pose proof (status_rows_effect rows self Hreg) as H.
  destruct (first_row_error rows) as [e|] eqn:Hbad.
  { rewrite Hrun in H. discriminate H. }
  destruct H as (s & Hs & Hreg1 & Ht1 & Hu1 & Hw1 & Hg1).
  rewrite Hrun in Hs. injection Hs as <-.
  pose proof (status_rows_effect rows s1 Hreg1) as H.
  rewrite Hbad in H. destruct H as (s2 & Hs2 & _ & Ht2 & Hu2 & Hw2 & Hg2).
  exists s2, (flat_map row_warning rows). split; [exact Hs2 |].
  split; [| split; [| split; [exact Hg2 | split; [exact Hw1 | exact Hw2]]]].
  - intros task. rewrite Ht2, Ht1. now destruct (last_task_state rows task).
  - rewrite Hu2, Hu1. now destruct (last_uptime rows).
Qed.

Lemma update_status_twice_witness :
  exists s2,
    update_status (Response status_page) after_status_page = (s2, Done) /\
    task_state s2 "Cable Modem Status"
    = task_state after_status_page "Cable Modem Status" /\
    gauge_value (uptime s2) = gauge_value (uptime after_status_page).
Proof.
  destruct (update_status_twice status_page (init 30) after_status_page
              (init_registered 30)
              (pair_of_snd (update_status (Response status_page) (init 30)) Done
                 ltac:(vm_compute; reflexivity)))
    as (s2 & logged & H2 & Ht & Hu & _).
  exists s2. split; [exact H2 |]. split; [exact (Ht "Cable Modem Status") | exact Hu].
Defined.

(** ** The signal page as a whole *)

Section SignalPage.

Lemma reading_set_signal table key channel v self g :
  signals self !! (table, key) = Some g ->
  forall c,
    reading (fst (set_signal table key channel v self)) table key c =
    if Z.eqb channel c then Some v else reading self table key c.
Proof.
  intros Hg c. unfold set_signal, reading. rewrite Hg.
  cbn [fst signals with_signals]. rewrite lookup_insert_eq. cbn [cg_children].
  destruct (Z.eqb_spec channel c) as [<- | Hne].
  - apply lookup_insert_eq.
  - now rewrite lookup_insert_ne.
Qed.

(** What the cells of a row do to the gauge of its key: with as many cells
    as channels and text in every cell the loop completes; else it raises. *)
Lemma signal_cells_outcome table key : forall ids values self,
  is_Some (signals self !! (table, key)) ->
  if (length values =? length ids)%nat && forallb has_text values
  then
    exists self',
      signal_cells table key ids values self = (self', Done) /\
      (forall c,
         reading self' table key c =
         match last_cell_value ids values c with
         | Some q => Some q
         | None => reading self table key c
         end) /\
      (forall tk, tk <> (table, key) -> signals self' !! tk = signals self !! tk) /\
      is_Some (signals self' !! (table, key)) /\
      tasks self' = tasks self /\ uptime self' = uptime self /\
      warnings self' = warnings self
  else exists e, snd (signal_cells table key ids values self) = Raised e.
Proof.
  induction ids as [|id ids IH]; intros [|[cell|] values] self Hg;
    cbn [length Nat.eqb forallb has_text andb signal_cells last_cell_value].
  - exists self. now repeat split.
  - eauto.
  - eauto.
  - eauto.
  - specialize (IH values).
    unfold numeric_token.
    destruct (rmatch FLOAT_RE cell) as [mo|]; cbn [fmap option_fmap option_map].
    + destruct Hg as [g Hg].
      pose proof (reading_set_signal table key id (py_float (group0 mo)) self g Hg)
        as Hr.
      unfold set_signal in *. rewrite Hg in *. cbn [fst] in Hr.
      match goal with |- context [signal_cells _ _ _ _ ?s] => specialize (IH s) end.
      cbn [signals with_signals] in IH. rewrite lookup_insert_eq in IH.
      specialize (IH ltac:(eauto)).
      destruct (_ && _); [| exact IH].
      destruct IH as (self' & Hrun & Hread & Hframe & Hsome & Ht & Hu & Hw).
      exists self'. split; [exact Hrun |]. split; [| split].
      * intros c. rewrite Hread.
        destruct (last_cell_value ids values c); [reflexivity |].
        rewrite Hr. now destruct (Z.eqb id c).
      * intros tk Hne. rewrite (Hframe tk Hne).
        cbn [signals with_signals]. now rewrite lookup_insert_ne.
      * now repeat split.
    + specialize (IH self Hg).
      destruct (_ && _); [| exact IH].
      destruct IH as (self' & Hrun & Hread & Hrest).
      exists self'. split; [exact Hrun |]. split; [| exact Hrest].
      intros c. rewrite Hread.
      destruct (last_cell_value ids values c); [reflexivity |].
      now destruct (Z.eqb id c).
  - rewrite andb_false_r. eauto.
Qed.

Lemma first_prefix_total label keys :
  exists found, first_prefix (Some label) keys = Ok found.
Proof.
  induction keys as [|k keys IH]; simpl; [eauto |].
  destruct (startswith label k); eauto.
Qed.

(** What a data row does: a row that is fine completes and keeps the
    exporter registered, any other row raises. *)
Lemma signal_row_outcome name ids row self :
  registered self ->
  if row_ok name (length ids) row
  then exists self',
         signal_row name ids row self = (self', Done) /\ registered self'
  else exists e, snd (signal_row name ids row self) = Raised e.
Proof.
  intros Hreg. unfold row_ok, signal_row.
  destruct (map text (findall "td" row)) as [|[label|] values]; [simpl; eauto | |].
  - destruct (dict_get SIGNAL_DATA name) as [keys|] eqn:Hkeys; [| simpl; eauto].
    destruct (first_prefix_total label keys) as [found Hfound]. rewrite Hfound.
    destruct found as [key|]; [| eauto].
    destruct (first_prefix_In _ _ _ Hfound) as [Hin _].
    destruct (schedule_keys _ _ Hkeys) as [_ Hne]. specialize (Hne key Hin).
    destruct key as [|c k]; [contradiction |].
    pose proof (signal_cells_outcome name (String c k) ids values self
                  (proj2 Hreg name keys _ Hkeys Hin)) as H.
    pose proof (signal_cells_registered name (String c k) ids values self Hreg)
      as Hreg'.
    destruct (_ && _); [| exact H].
    destruct H as (self' & Hrun & _). rewrite Hrun in Hreg' |- *. eauto.
  - destruct (dict_get SIGNAL_DATA name) as [keys|] eqn:Hkeys; [| simpl; eauto].
    destruct (schedule_keys _ _ Hkeys) as [Hne _].
    destruct keys; [contradiction | simpl; eauto].
Qed.

Lemma signal_rows_outcome name ids rows : forall self,
  registered self ->
  if forallb (row_ok name (length ids)) rows
  then exists self',
         for_each (signal_row name ids) rows self = (self', Done) /\
         registered self'
  else exists e, snd (for_each (signal_row name ids) rows self) = Raised e.
Proof.
  induction rows as [|row rows IH]; intros self Hreg; cbn [forallb for_each].
  - eauto.
  - pose proof (signal_row_outcome name ids row self Hreg) as Hrow.
    destruct (row_ok name (length ids) row); cbn [andb].
    + destruct Hrow as (self1 & -> & Hreg1). now apply IH.
    + destruct Hrow as [e He].
      destruct (signal_row name ids row self) as [s [|e']];
        simpl in *; [discriminate | eauto].
Qed.

Lemma signal_table_outcome table self :
  registered self ->
  if table_ok table
  then exists self', signal_table table self = (self', Done) /\ registered self'
  else exists e, snd (signal_table table self) = Raised e.
Proof.
  intros Hreg. unfold table_ok, signal_table.
  destruct (findall2 "tbody" "tr" table) as [|header [|channels [|row rows]]];
    try (cbn; eauto; fail).
  change (length (header :: channels :: row :: rows) <? 3)%nat with false.
  cbv iota.
  destruct (table_name_of header) as [name|e]; [| simpl; eauto].
  destruct (channel_ids_of channels) as [ids|e]; [| simpl; eauto].
  now apply signal_rows_outcome.
Qed.

Lemma signal_tables_outcome tables : forall self,
  registered self ->
  if forallb table_ok tables
  then exists self', for_each signal_table tables self = (self', Done) /\
                     registered self'
  else exists e, snd (for_each signal_table tables self) = Raised e.
Proof.
  induction tables as [|table tables IH]; intros self Hreg; cbn [forallb for_each].
  - eauto.
  - pose proof (signal_table_outcome table self Hreg) as Ht.
    destruct (table_ok table); cbn [andb].
    + destruct Ht as (self1 & -> & Hreg1). now apply IH.
    + destruct Ht as [e He].
      destruct (signal_table table self) as [s [|e']];
        simpl in *; [discriminate | eauto].
Qed.

Lemma update_signal_done got self :
  registered self ->
  (snd (update_signal got self) = Done <-> signal_ok got = true).
Proof.
  intros Hreg. unfold update_signal, signal_ok.
  destruct got as [resp|e]; [| split; discriminate].
  destruct (ok resp); cbn [negb orb]; [| now split].
  pose proof (signal_tables_outcome (xpath_all "table" (html resp)) self Hreg) as H.
  destruct (forallb table_ok _).
  - destruct H as (self' & -> & _). now split.
  - destruct H as [e ->]. split; discriminate.
Qed.

Lemma update_status_done got self :
  registered self ->
  (snd (update_status got self) = Done <-> status_ok got = true).
Proof.
  intros Hreg. rewrite (update_status_snd got self Hreg). unfold status_ok.
  destruct (status_outcome got); split; (reflexivity || discriminate).
Qed.

End SignalPage.

(** X4. A data row whose label begins with a key of its table, with as
    many cells after the label as channel ids and text in every cell, sets
    for every channel the value of the number its cell begins with (the
    last cell of a channel id that comes twice wins; a cell without a
    number leaves the reading as it was) and touches nothing else. *)
Theorem signal_row_sets_readings name ids row self keys label values key :
  registered self ->
  map text (findall "td" row) = Some label :: values ->
  dict_get SIGNAL_DATA name = Some keys ->
  first_prefix (Some label) keys = Ok (Some key) ->
  length values = length ids ->
  forallb has_text values = true ->
  exists self',
    signal_row name ids row self = (self', Done) /\
    (forall c,
       reading self' name key c =
       match last_cell_value ids values c with
       | Some q => Some q
       | None => reading self name key c
       end) /\
    (forall t k c, (t, k) <> (name, key) -> reading self' t k c = reading self t k c) /\
    tasks self' = tasks self /\ uptime self' = uptime self /\
    warnings self' = warnings self.
Proof.
  intros Hreg Hrow Hkeys Hkey Hlen Htext.
  rewrite (signal_row_labelled name ids row self keys label values key
             Hrow Hkeys Hkey).
  destruct (first_prefix_In _ _ _ Hkey) as [Hin _].
  pose proof (signal_cells_outcome name key ids values self
                (proj2 Hreg name keys key Hkeys Hin)) as H.
  rewrite Hlen, Nat.eqb_refl, Htext in H. cbn [andb] in H.
  destruct H as (self' & Hrun & Hread & Hframe & _ & Hrest).
  exists self'. split; [exact Hrun |]. split; [exact Hread |].
  split; [| exact Hrest].
  intros t k c Hne. unfold reading. now rewrite (Hframe (t, k) Hne).
Qed.

Lemma signal_row_sets_readings_witness :
  exists self',
    signal_row "Downstream" [1; 2; 3] described_power_row (init 30) = (self', Done) /\
    reading self' "Downstream" "Power Level" 1 = Some (Qred 5.1) /\
    reading self' "Downstream" "Power Level" 2 = Some (Qred 4.9) /\
    reading self' "Downstream" "Power Level" 3 = Some (Qred 5.0) /\
    reading self' "Upstream" "Power Level" 1 = None.
Proof.
  destruct (signal_row_sets_readings "Downstream" [1; 2; 3] described_power_row
    (init 30)
    ["Frequency"; "Signal to Noise Ratio"; "Downstream Modulation"; "Power Level"]
    "Power Level: the downstream power"
    [Some "5.1 dBmV"; Some "4.9 dBmV"; Some "5.0 dBmV"] "Power Level"
    (init_registered 30) eq_refl eq_refl eq_refl eq_refl eq_refl)
    as (self' & Hrun & Hread & Hframe & _).
  exists self'. split; [exact Hrun |].
  split; [exact (Hread 1) |]. split; [exact (Hread 2) |].
  split; [exact (Hread 3) |].
  rewrite (Hframe "Upstream" "Power Level" 1 ltac:(discriminate)).
  vm_compute. reflexivity.
Defined.

(** X5. On a registered exporter [update_signal] completes exactly when
    the fetch gave a response that is not [ok], or one in which every
    table has fewer than three rows or has a name in its header, channel
    cells that [int] takes (literals of at most 4300 digits) and data rows that each have a label with text, a
    name of the schedule above them and, under a label that begins with a
    key, as many cells as channels, all with text. On any other fetch it
    raises. *)
Theorem update_signal_completes_iff got self :
  registered self ->
  (snd (update_signal got self) = Done <-> signal_ok got = true).
Proof.
  intros Hreg. unfold update_signal, signal_ok.
  destruct got as [resp|e]; [| split; discriminate].
  destruct (ok resp); cbn [negb orb]; [| now split].
  pose proof (signal_tables_outcome (xpath_all "table" (html resp)) self Hreg) as H.
  destruct (forallb table_ok _).
  - destruct H as (self' & -> & _). now split.
  - destruct H as [e ->]. split; discriminate.
Qed.

Lemma update_signal_completes_iff_witness :
  snd (update_signal (Response (page_of [short_table; downstream_table])) (init 30))
  = Done /\
  snd (update_signal (Response (page_of [downstream_table; mismatch_table])) (init 30))
  <> Done /\
  snd (update_signal (Response (page_of [long_channel_table])) (init 30))
  <> Done.
Proof.
  split; [| split].
  - apply (update_signal_completes_iff
             (Response (page_of [short_table; downstream_table])) (init 30)
             (init_registered 30)).
    reflexivity.
  - intros H.
    apply (update_signal_completes_iff
             (Response (page_of [downstream_table; mismatch_table])) (init 30)
             (init_registered 30)) in H.
    discriminate H.
  - intros H.
    apply (update_signal_completes_iff
             (Response (page_of [long_channel_table])) (init 30)
             (init_registered 30)) in H.
    vm_compute in H. discriminate H.
Defined.

(** ** What the parsers keep *)

Section Evolution.

Lemma same_status_refl self : same_status self self.
Proof. now repeat split. Qed.

Lemma same_status_trans a b c : same_status a b -> same_status b c -> same_status a c.
Proof. intros (H1 & H2 & H3) (K1 & K2 & K3). repeat split; congruence. Qed.

Lemma keeps_readings_refl self : keeps_readings self self.
Proof. now intros t k c H. Qed.

Lemma keeps_readings_trans a b c :
  keeps_readings a b -> keeps_readings b c -> keeps_readings a c.
Proof. intros H K t k ch Hc. now apply K, H. Qed.

Lemma evolves_refl self : evolves self self.
Proof.
  split; [exists []; now rewrite app_nil_r |].
  split; [apply keeps_readings_refl | now split].
Qed.

Lemma evolves_trans a b c : evolves a b -> evolves b c -> evolves a c.
Proof.
  intros ([m1 H1] & H2 & H3 & H4) ([n1 K1] & K2 & K3 & K4).
  split; [exists (m1 ++ n1); now rewrite K1, H1, app_assoc |].
  split; [now apply (keeps_readings_trans a b c) |]. split; auto.
Qed.

Lemma signal_step_refl self : signal_step self self.
Proof. split; [apply same_status_refl | apply keeps_readings_refl]. Qed.

Lemma signal_step_trans a b c : signal_step a b -> signal_step b c -> signal_step a c.
Proof.
  intros [H1 H2] [K1 K2].
  split; [now apply (same_status_trans a b c) | now apply (keeps_readings_trans a b c)].
Qed.

Lemma set_signal_step table key channel v self :
  signal_step self (fst (set_signal table key channel v self)).
Proof.
  unfold set_signal.
  destruct (signals self !! (table, key)) as [g|] eqn:Hg; [| apply signal_step_refl].
  split; [now repeat split |].
  intros t k c. unfold reading. cbn [fst signals with_signals].
  destruct (decide ((table, key) = (t, k))) as [[= <- <-] | Hne].
  - rewrite lookup_insert_eq, Hg. cbn [cg_children].
    destruct (decide (channel = c)) as [<- | Hc].
    + rewrite lookup_insert_eq. eauto.
    + now rewrite lookup_insert_ne.
  - now rewrite lookup_insert_ne.
Qed.

Lemma signal_cells_step table key ids values :
  forall self, signal_step self (fst (signal_cells table key ids values self)).
Proof.
  revert values; induction ids as [|c ids IH]; intros [|[cell|] values] self;
    simpl; try apply signal_step_refl.
  destruct (rmatch FLOAT_RE cell) as [mo|]; [| apply IH].
  pose proof (set_signal_step table key c (py_float (group0 mo)) self) as Hn.
  destruct (set_signal _ _ _ _ self) as [self' [|e]]; simpl in *; [| exact Hn].
  eapply signal_step_trans; [exact Hn | apply IH].
Qed.

Lemma signal_table_step table self :
  signal_step self (fst (signal_table table self)).
Proof.
  unfold signal_table.
  destruct (_ <? _)%nat; [apply signal_step_refl |].
  destruct (findall2 "tbody" "tr" table) as [|header [|channels rows]];
    try apply signal_step_refl.
  destruct (table_name_of header) as [name|]; [| apply signal_step_refl].
  destruct (channel_ids_of channels) as [ids|]; [| apply signal_step_refl].
  apply for_each_preserves;
    [apply signal_step_refl | apply signal_step_trans |].
  intros row st. unfold signal_row.
  destruct (map text (findall "td" row)) as [|key values];
    [apply signal_step_refl |].
  destruct (dict_get SIGNAL_DATA name) as [keys|]; [| apply signal_step_refl].
  destruct (first_prefix key keys) as [[[|c k]|]|]; try apply signal_step_refl.
  apply signal_cells_step.
Qed.

Lemma update_signal_step got self :
  signal_step self (fst (update_signal got self)).
Proof.
  destruct got as [resp|e]; unfold update_signal; [| apply signal_step_refl].
  destruct (negb (ok resp)); [apply signal_step_refl |].
  apply for_each_preserves;
    [apply signal_step_refl | apply signal_step_trans | apply signal_table_step].
Qed.

Lemma signal_step_evolves a b : signal_step a b -> evolves a b.
Proof.
  intros [(Ht & Hu & Hw) Hr].
  split; [exists []; now rewrite app_nil_r |]. split; [exact Hr |].
  split; [now rewrite Hu |].
  intros Hv task e. rewrite Ht. apply Hv.
Qed.

Lemma status_step_refl self : status_step self self.
Proof. split; [reflexivity | apply evolves_refl]. Qed.

Lemma status_step_trans a b c : status_step a b -> status_step b c -> status_step a c.
Proof.
  intros [H1 H2] [K1 K2].
  split; [congruence | now apply (evolves_trans a b c)].
Qed.

Lemma same_signals_keeps a b : signals b = signals a -> keeps_readings a b.
Proof. intros H t k c. unfold reading. now rewrite H. Qed.

Lemma set_task_state_step task value self :
  status_step self (fst (set_task_state task value self)).
Proof.
  unfold set_task_state.
  destruct (tasks self !! task) as [e|] eqn:He; [| apply status_step_refl].
  destruct (in_list value (enum_states e)) eqn:Hv; [| apply status_step_refl].
  split; [reflexivity |].
  split; [exists []; cbn; now rewrite app_nil_r |].
  split; [now apply same_signals_keeps |]. split; [auto |].
  intros Hvalid t e'. cbn [fst tasks with_tasks].
  destruct (decide (task = t)) as [<- | Hne].
  - rewrite lookup_insert_eq. now intros [= <-].
  - rewrite lookup_insert_ne by exact Hne. apply Hvalid.
Qed.

Lemma log_warning_step w self : status_step self (log_warning w self).
Proof.
  split; [reflexivity |]. split; [now exists [w] |].
  split; [now apply same_signals_keeps | now split].
Qed.

Lemma status_row_step row self : status_step self (fst (status_row row self)).
Proof.
  rewrite status_row_cases.
  destruct (row_texts row) as [[task value]|]; [| apply status_step_refl].
  destruct (in_list task TASKS).
  - destruct (in_list value TASK_STATES); [apply set_task_state_step |].
    pose proof (set_task_state_step task "Other" self) as Hn.
    destruct (set_task_state task "Other" self) as [self' [|e]];
      simpl in *; [| exact Hn].
    eapply status_step_trans; [exact Hn | apply log_warning_step].
  - destruct (String.eqb task TIME); [apply status_step_refl |].
    destruct (String.eqb task UPTIME); [| apply log_warning_step].
    rewrite uptime_branch.
    pose proof (uptime_float_nonneg value) as Hz.
    destruct (uptime_float value) as [z|e]; [| apply status_step_refl].
    cbn [fst].
    split; [reflexivity |]. split; [exists []; cbn; now rewrite app_nil_r |].
    split; [now apply same_signals_keeps |].
    split; [intros _; now apply Hz | auto].
Qed.

Lemma update_status_step got self :
  status_step self (fst (update_status got self)).
Proof.
  destruct got as [resp|e]; unfold update_status; [| apply status_step_refl].
  destruct (negb (ok resp)); [apply status_step_refl |].
  apply for_each_preserves;
    [apply status_step_refl | apply status_step_trans | apply status_row_step].
Qed.

Lemma poll_evolves got self : evolves self (fst (poll got self)).
Proof.
  apply poll_preserves; [apply evolves_refl | apply evolves_trans | |].
  - intros got' self'. apply update_status_step.
  - intros got' self'. apply signal_step_evolves, update_signal_step.
Qed.

Lemma main_loop_evolves fetches self :
  evolves self (fst (main_loop fetches self)).
Proof.
  unfold main_loop. apply for_each_preserves;
    [apply evolves_refl | apply evolves_trans | apply poll_evolves].
Qed.

Lemma init_states_valid r : states_valid (init r).
Proof.
  intros task e. unfold init. cbn [tasks].
  generalize (∅ : gmap string Enum) (lookup_empty (M := gmap string) (A := Enum) task).
  induction TASKS as [|t l IH]; intros m Hm; simpl.
  - now rewrite Hm.
  - destruct (decide (t = task)) as [-> | Hne].
    + clear Hm IH. revert m. induction l as [|t' l IH]; intros m; simpl.
      * rewrite lookup_insert_eq. now intros [= <-].
      * destruct (decide (t' = task)) as [-> | Hne].
        -- rewrite insert_insert_eq. apply IH.
        -- rewrite insert_insert_ne by congruence. apply IH.
    + apply IH. now rewrite lookup_insert_ne.
Qed.

End Evolution.

(** X6. Each parser keeps to its own metrics, whatever it is given and
    however it ends: [update_status] leaves every signal gauge as it was,
    [update_signal] leaves the task states, the uptime and the warnings as
    they were. *)
Theorem parsers_keep_to_their_metrics got self :
  signals (fst (update_status got self)) = signals self /\
  tasks (fst (update_signal got self)) = tasks self /\
  uptime (fst (update_signal got self)) = uptime self /\
  warnings (fst (update_signal got self)) = warnings self.
Proof.
  destruct (update_status_step got self) as [Hs _].
  destruct (update_signal_step got self) as [(Ht & Hu & Hw) _].
  now repeat split.
Qed.

(** X7. A reading is never removed: a channel that has a value keeps one
    through any turns of the loop, also through failed fetches and
    exceptions. *)
Theorem readings_never_removed fetches self table key channel :
  is_Some (reading self table key channel) ->
  is_Some (reading (fst (main_loop fetches self)) table key channel).
Proof.
  intros H. destruct (main_loop_evolves fetches self) as (_ & Hkeep & _).
  now apply Hkeep.
Qed.

Lemma readings_never_removed_witness :
  is_Some (reading (fst (main_loop two_turns after_downstream))
                   "Downstream" "Power Level" 2).
Proof.
  apply (readings_never_removed two_turns after_downstream
           "Downstream" "Power Level" 2).
  exists (Qred 4.9). vm_compute. reflexivity.
Defined.

(** X9. The uptime gauge never goes negative: from a non-negative value
    (it is 0 at the start) any turns of the loop leave it non-negative. *)
Theorem uptime_never_negative fetches self :
  0 <= gauge_value (uptime self) ->
  0 <= gauge_value (uptime (fst (main_loop fetches self))).
Proof.
  intros H. destruct (main_loop_evolves fetches self) as (_ & _ & Hu & _).
  now apply Hu.
Qed.

Lemma uptime_never_negative_witness :
  0 <= gauge_value (uptime (fst (main_loop two_turns (init 30)))).
Proof.
  apply (uptime_never_negative two_turns (init 30)).
  vm_compute. discriminate.
Defined.

(** X10. Every task of the schedule always has a state, and it is one of
    [TASK_STATES]: so it is after [__init__], and any turns of the loop
    keep it so, whatever the pages hold. *)
Theorem task_states_stay_valid fetches self task :
  registered self -> states_valid self ->
  in_list task TASKS = true ->
  exists v,
    task_state (fst (main_loop fetches self)) task = Some v /\
    in_list v TASK_STATES = true.
Proof.
  intros Hreg Hvalid Hin.
  destruct (main_loop_evolves fetches self) as (_ & _ & _ & Hv).
  destruct (main_loop_registered fetches self Hreg) as [Ht _].
  destruct (Ht task Hin) as (e & He & Hst).
  exists (enum_state e). unfold task_state. rewrite He. split; [reflexivity |].
  rewrite <- Hst. now apply (Hv Hvalid task e).
Qed.

Lemma task_states_stay_valid_witness :
  (exists v, task_state (init 30) "Cable Modem Status" = Some v /\
             in_list v TASK_STATES = true) /\
  (exists v, task_state (fst (main_loop two_turns (init 30)))
               "Cable Modem Status" = Some v /\
             in_list v TASK_STATES = true).
Proof.
  split.
  - exact (task_states_stay_valid [] (init 30) "Cable Modem Status"
             (init_registered 30) (init_states_valid 30) eq_refl).
  - exact (task_states_stay_valid two_turns (init 30) "Cable Modem Status"
             (init_registered 30) (init_states_valid 30) eq_refl).
Defined.

(** ** When the loop goes on *)

Section LoopOutcome.

(** Nothing writes the refresh rate. *)
Lemma status_row_rate row self :
  refresh_rate (fst (status_row row self)) = refresh_rate self.
Proof.
  rewrite status_row_cases.
  destruct (row_texts row) as [[task value]|]; [| reflexivity].
  destruct (in_list task TASKS).
  - unfold set_task_state. destruct (tasks self !! task) as [e|]; [| now destruct (in_list value TASK_STATES)].
    destruct (in_list value TASK_STATES).
    + now destruct (in_list value (enum_states e)).
    + now destruct (in_list "Other" (enum_states e)).
  - destruct (String.eqb task TIME); [reflexivity |].
    destruct (String.eqb task UPTIME); [| reflexivity].
    rewrite uptime_branch. now destruct (uptime_float value).
Qed.

Lemma signal_cells_rate table key ids values : forall self,
  refresh_rate (fst (signal_cells table key ids values self)) = refresh_rate self.
Proof.
  revert values; induction ids as [|c ids IH]; intros [|[cell|] values] self;
    simpl; try reflexivity.
  destruct (rmatch FLOAT_RE cell) as [mo|]; [| apply IH].
  unfold set_signal. destruct (signals self !! (table, key)); [| reflexivity].
  now rewrite IH.
Qed.

Lemma signal_table_rate table self :
  refresh_rate (fst (signal_table table self)) = refresh_rate self.
Proof.
  unfold signal_table.
  destruct (_ <? _)%nat; [reflexivity |].
  destruct (findall2 "tbody" "tr" table) as [|header [|channels rows]];
    try reflexivity.
  destruct (table_name_of header) as [name|]; [| reflexivity].
  destruct (channel_ids_of channels) as [ids|]; [| reflexivity].
  apply (for_each_preserves _ (fun a b => refresh_rate b = refresh_rate a));
    [reflexivity | intros; congruence |].
  intros row st. unfold signal_row.
  destruct (map text (findall "td" row)) as [|key values]; [reflexivity |].
  destruct (dict_get SIGNAL_DATA name) as [keys|]; [| reflexivity].
  destruct (first_prefix key keys) as [[[|c k]|]|]; try reflexivity.
  apply signal_cells_rate.
Qed.

Lemma poll_rate got self : refresh_rate (fst (poll got self)) = refresh_rate self.
Proof.
  apply (poll_preserves (fun a b => refresh_rate b = refresh_rate a));
    [reflexivity | intros; congruence | |].
  - intros [resp|e] st; unfold update_status; [| reflexivity].
    destruct (negb (ok resp)); [reflexivity |].
    apply (for_each_preserves _ (fun a b => refresh_rate b = refresh_rate a));
      [reflexivity | intros; congruence | apply status_row_rate].
  - intros [resp|e] st; unfold update_signal; [| reflexivity].
    destruct (negb (ok resp)); [reflexivity |].
    apply (for_each_preserves _ (fun a b => refresh_rate b = refresh_rate a));
      [reflexivity | intros; congruence | apply signal_table_rate].
Qed.

(** An int of 2^1024 or more is beyond the floats. *)
Lemma float_of_int_huge n : 2 ^ 1024 <= n -> float_of_int n = Raise OverflowError.
Proof.
  intros Hn.
  assert (Hpos : 0 < n) by (pose proof (Z.pow_pos_nonneg 2 1024); lia).
  unfold float_of_int. cbv zeta. rewrite (Z.abs_eq n) by lia.
  remember (Z.log2 n) as L eqn:HL.
  assert (H1024 : 1024 <= L).
  { subst L. rewrite <- (Z.log2_pow2 1024) by lia. now apply Z.log2_le_mono. }
  destruct (Z.log2_spec n Hpos) as [Hlow _]. rewrite <- HL in Hlow.
  destruct (Z.leb_spec (L - 52) 0) as [Hle | _]; [lia |].
  remember (L - 52) as e eqn:He.
  assert (Hsplit : 2 ^ L = 2 ^ 52 * 2 ^ e).
  { rewrite <- Z.pow_add_r by lia. f_equal. lia. }
  assert (Hpe : 0 < 2 ^ e) by (apply Z.pow_pos_nonneg; lia).
  assert (Hq : 2 ^ 52 <= Z.shiftr n e).
  { rewrite Z.shiftr_div_pow2 by lia.
    rewrite <- (Z.div_mul (2 ^ 52) (2 ^ e)) by lia.
    apply Z.div_le_mono; [exact Hpe |]. now rewrite <- Hsplit. }
  remember (Z.shiftr n e) as q eqn:Hqe.
  match goal with
  | |- context [Z.shiftl ?x e] =>
      match x with
      | q => fail 1
      | _ => remember x as q' eqn:Hq'
      end
  end.
  assert (Hq'q : q <= q') by (subst q'; destruct (_ || _); lia).
  rewrite (Z.shiftl_mul_pow2 q' e) by lia.
  destruct (Z.leb_spec (2 ^ 1024) (q' * 2 ^ e)) as [_ | Hlt]; [reflexivity |].
  exfalso.
  assert (2 ^ 1024 <= 2 ^ L) by (apply Z.pow_le_mono_r; lia).
  assert (2 ^ 52 * 2 ^ e <= q' * 2 ^ e) by (apply Z.mul_le_mono_nonneg_r; lia).
  lia.
Qed.

(** One turn: it completes when both fetches are fine and the sleep
    returns, and it leaves the exporter registered. *)
Lemma poll_outcome got self :
  registered self ->
  registered (fst (poll got self)) /\
  (snd (poll got self) = Done <-> turn_ok (refresh_rate self) got = true).
Proof.
  intros Hreg.
  pose proof (poll_rate got self) as Hrate. revert Hrate.
  unfold poll, turn_ok.
  pose proof (update_status_registered (status_fetch got) self Hreg) as Hreg1.
  pose proof (update_status_done (status_fetch got) self Hreg) as Hs.
  destruct (update_status (status_fetch got) self) as [s1 [|e]];
    cbn [fst snd] in *.
  2:{ intros _. split; [exact Hreg1 |].
      destruct (status_ok (status_fetch got)); [| split; discriminate].
      destruct Hs as [_ Hs]. discriminate (Hs eq_refl). }
  rewrite (proj1 Hs eq_refl). cbn [andb].
  pose proof (update_signal_registered (signal_fetch got) s1 Hreg1) as Hreg2.
  pose proof (update_signal_done (signal_fetch got) s1 Hreg1) as Hg.
  destruct (update_signal (signal_fetch got) s1) as [s2 [|e]];
    cbn [fst snd] in *.
  2:{ intros _. split; [exact Hreg2 |].
      destruct (signal_ok (signal_fetch got)); [| split; discriminate].
      destruct Hg as [_ Hg]. discriminate (Hg eq_refl). }
  rewrite (proj1 Hg eq_refl). cbn [andb].
  rewrite sleep_keeps. intros Hrate. split; [exact Hreg2 |].
  unfold sleep_until_next, sleep_ok, time_sleep. rewrite Hrate.
  destruct (float_of_int (refresh_rate self)) as [r|e]; cbn [snd];
    [| split; discriminate].
  cbv zeta.
  destruct (_ <? _)%float; cbn [snd orb].
  { destruct (os_sleep got); split; (reflexivity || discriminate). }
  destruct (PrimFloat.is_nan _); cbn [negb andb];
    [destruct (os_sleep got); split; discriminate |].
  destruct (_ <=? _)%float; cbn [negb andb];
    [| destruct (os_sleep got); split; discriminate].
  destruct (_ =? _)%float; cbn [negb];
    [destruct (os_sleep got); split; discriminate |].
  destruct (os_sleep got); split; (reflexivity || discriminate).
Qed.

End LoopOutcome.

(** X11. From a registered exporter the loop goes through all its turns
    exactly when in every turn [update_status] and [update_signal] are
    given fetches they take without an exception and the sleep returns:
    the refresh rate goes into a float, the time left is under 5 seconds
    or has nanoseconds below 2^63, and the operating system's sleep
    returns. A fetch that raises, an uptime row that does not go through,
    a bad table or a sleep that raises ends the loop with an exception; so
    a refresh rate of 2^1024 or more never gets through the first turn. *)
Theorem main_loop_completes_iff fetches self :
  registered self ->
  (snd (main_loop fetches self) = Done <->
   forallb (turn_ok (refresh_rate self)) fetches = true) /\
  (2 ^ 1024 <= refresh_rate self -> fetches <> [] ->
   snd (main_loop fetches self) <> Done).
Proof.
  intros Hreg.
  assert (Hiff : snd (main_loop fetches self) = Done <->
                 forallb (turn_ok (refresh_rate self)) fetches = true).
  { revert self Hreg. unfold main_loop.
    induction fetches as [|got fetches IH]; intros self Hreg;
      cbn [for_each forallb].
    - now split.
    - destruct (poll_outcome got self Hreg) as [Hreg1 Hturn].
      pose proof (poll_rate got self) as Hrate.
      destruct (poll got self) as [s1 [|e]]; cbn [fst snd] in *.
      + rewrite (proj1 Hturn eq_refl). cbn [andb]. rewrite <- Hrate.
        now apply IH.
      + destruct (turn_ok (refresh_rate self) got); cbn [andb];
          [| split; discriminate].
        destruct Hturn as [_ Hturn]. discriminate (Hturn eq_refl). }
  split; [exact Hiff |].
  intros Hhuge Hne Hdone. apply Hiff in Hdone.
  destruct fetches as [|got fetches]; [now apply Hne |].
  cbn [forallb] in Hdone.
  apply andb_prop in Hdone as [Hturn _].
  unfold turn_ok in Hturn. apply andb_prop in Hturn as [_ Hsleep].
  unfold sleep_ok in Hsleep.
  now rewrite (float_of_int_huge _ Hhuge) in Hsleep.
Qed.

Lemma main_loop_completes_iff_witness :
  snd (main_loop [good_turn] (init 30)) = Done /\
  snd (main_loop two_turns (init 30)) <> Done /\
  snd (main_loop [good_turn] (init (10 ^ 19))) <> Done /\
  snd (main_loop [good_turn] (init (10 ^ 400))) <> Done.
Proof.
  split; [| split; [| split]].
  - apply (proj1 (main_loop_completes_iff [good_turn] (init 30)
                    (init_registered 30))).
    vm_compute. reflexivity.
  - intros H.
    apply (proj1 (main_loop_completes_iff two_turns (init 30)
                    (init_registered 30))) in H.
    vm_compute in H. discriminate H.
  - intros H.
    apply (proj1 (main_loop_completes_iff [good_turn] (init (10 ^ 19))
                    (init_registered (10 ^ 19)))) in H.
    vm_compute in H. discriminate H.
  - apply (proj2 (main_loop_completes_iff [good_turn] (init (10 ^ 400))
                    (init_registered (10 ^ 400)))).
    + vm_compute. discriminate.
    + discriminate.
Defined.

(** ** Metric names *)

Section MetricNames.

Lemma contains_app c a b : contains c (a +:+ b) = contains c a || contains c b.
Proof.
  induction a as [|x a IH]; simpl; [reflexivity |].
  now rewrite IH, orb_assoc.
Qed.

Lemma contains_replace_same a b s :
  contains a b = false -> contains a (replace a b s) = false.
Proof.
  intros Hb. induction s as [|x s IH]; simpl; [reflexivity |].
  destruct (Ascii.eqb x a) eqn:E.
  - now rewrite contains_app, Hb, IH.
  - simpl. now rewrite E, IH.
Qed.

Lemma contains_replace_other c a b s :
  contains c b = false -> contains c s = false ->
  contains c (replace a b s) = false.
Proof.
  intros Hb. induction s as [|x s IH]; simpl; [reflexivity |].
  intros H. apply orb_false_iff in H as [Hx Hs].
  destruct (Ascii.eqb x a).
  - now rewrite contains_app, Hb, IH.
  - simpl. now rewrite Hx, IH.
Qed.

Lemma contains_lstrip c s : contains c s = false -> contains c (lstrip s) = false.
Proof.
  induction s as [|x s IH]; simpl; [reflexivity |].
  intros H. destruct (is_space x); [| exact H].
  apply orb_false_iff in H as [_ Hs]. now apply IH.
Qed.

Lemma contains_rstrip c s : contains c s = false -> contains c (rstrip s) = false.
Proof.
  induction s as [|x s IH]; simpl; [reflexivity |].
  intros H. apply orb_false_iff in H as [Hx Hs]. specialize (IH Hs).
  destruct (rstrip s) as [|y r].
  - destruct (is_space x); simpl; [reflexivity | now rewrite Hx].
  - simpl in *. now rewrite Hx, IH.
Qed.

Lemma contains_strip c s : contains c s = false -> contains c (strip s) = false.
Proof. intros H. now apply contains_rstrip, contains_lstrip. Qed.

Lemma contains_join c sep words :
  contains c sep = false -> Forall (fun w => contains c w = false) words ->
  contains c (join sep words) = false.
Proof.
  intros Hsep Hall. induction Hall as [|w ws Hw Hall IH]; [reflexivity |].
  cbn [join]. destruct ws as [|w' ws']; [exact Hw |].
  now rewrite !contains_app, Hw, Hsep, IH.
Qed.

Lemma contains_lower c s :
  (forall x, lower_char x = c -> x = c) ->
  contains c s = false -> contains c (lower s) = false.
Proof.
  intros Hc. induction s as [|x s IH]; simpl; [reflexivity |].
  intros H. apply orb_false_iff in H as [Hx Hs]. rewrite (IH Hs), orb_false_r.
  apply Ascii.eqb_neq. intros E. apply Hc in E.
  apply Ascii.eqb_neq in Hx. contradiction.
Qed.

Lemma lower_char_fixes (c : ascii) :
  (nat_of_ascii c < 97)%nat -> forall x, lower_char x = c -> x = c.
Proof.
  intros Hc x <-. revert Hc.
  destruct x as [[] [] [] [] [] [] [] []]; vm_compute; intros H;
    reflexivity || lia.
Qed.

Lemma lower_char_not_upper x : is_upper (lower_char x) = false.
Proof. destruct x as [[] [] [] [] [] [] [] []]; reflexivity. Qed.

Lemma lower_no_upper s : has_upper (lower s) = false.
Proof.
  induction s as [|x s IH]; simpl; [reflexivity |].
  now rewrite lower_char_not_upper, IH.
Qed.

Lemma lower_app a b : lower (a +:+ b) = lower a +:+ lower b.
Proof. induction a as [|x a IH]; simpl; [reflexivity | now rewrite IH]. Qed.

Lemma join_cons sep w ws : exists rest, join sep (w :: ws) = w +:+ rest.
Proof.
  destruct ws as [|w' ws']; cbn [join].
  - exists EmptyString. now rewrite app_empty_r.
  - eauto.
Qed.

(** A word as [to_metric] prepares it has no space and no parenthesis. *)
Lemma prepared_word c word :
  c = " "%char \/ c = "("%char \/ c = ")"%char ->
  contains c (strip (replace " " "_" (replace ")" "" (replace "(" "" word)))) = false.
Proof.
  intros Hc. apply contains_strip.
  destruct Hc as [-> | [-> | ->]].
  - now apply contains_replace_same.
  - apply contains_replace_other; [reflexivity |].
    apply contains_replace_other; [reflexivity |].
    now apply contains_replace_same.
  - apply contains_replace_other; [reflexivity |].
    now apply contains_replace_same.
Qed.

End MetricNames.

(** X12. Whatever the words, the name [to_metric] gives begins with
    ["surfboard"], has no space and no parenthesis, and has no capital
    letter A-Z. *)
Theorem to_metric_name_shape (words : list string) :
  startswith (to_metric words) METRIC_PREFIX = true /\
  contains " " (to_metric words) = false /\
  contains "(" (to_metric words) = false /\
  contains ")" (to_metric words) = false /\
  has_upper (to_metric words) = false.
Proof.
  unfold to_metric.
  set (prepared := map _ words).
  assert (Hclean : forall c,
    c = " "%char \/ c = "("%char \/ c = ")"%char ->
    contains c (lower (join "_" (METRIC_PREFIX :: prepared))) = false).
  { intros c Hc. apply contains_lower.
    - apply lower_char_fixes. destruct Hc as [-> | [-> | ->]]; vm_compute; lia.
    - apply contains_join.
      + destruct Hc as [-> | [-> | ->]]; reflexivity.
      + constructor; [destruct Hc as [-> | [-> | ->]]; reflexivity |].
        subst prepared. induction words as [|word words IH]; simpl;
          constructor; [now apply prepared_word | exact IH]. }
  split; [| split; [| split; [| split]]]; auto using lower_no_upper.
  destruct (join_cons "_" METRIC_PREFIX prepared) as [rest ->].
  rewrite lower_app. unfold startswith.
  change (lower METRIC_PREFIX) with METRIC_PREFIX.
  now rewrite strip_prefix_app.
Qed.
